(** * Telex AI agent (main.go): conversation store, extractors, prompt
    builder and HTTP handlers.

    Strings are Go strings, i.e. byte strings, modelled as Rocq [string]
    (one [ascii] per byte).  [strings.ToLower] and [strings.Fields] are
    modelled with both their ASCII fast paths and their general paths:
    UTF-8 decoding as in [utf8.DecodeRuneInString], [strings.Map] with
    [unicode.ToLower], and [strings.FieldsFunc] with [unicode.IsSpace].
    The generated case table [unicode.CaseRanges] is not written out: it is
    a parameter (the type class [CaseTable]) of every definition that lower
    cases, and every theorem holds for all tables, hence for Go's; the
    closed examples run on an excerpt of it, [case_ranges_excerpt].  The
    two external HTTP services (the Groq completion API and the Telex
    message API) are oracles: functions from the request to the HTTP
    outcome.  The request-level handlers run in a small state monad over
    the process-wide conversation map and a log of the outbound HTTP
    calls. *)

From Stdlib Require Import ZArith Strings.String Strings.Ascii
  Numbers.DecimalString QArith Sorting.Permutation.
From stdpp Require Import base gmap strings list.

(* ===================================================================== *)
(** ** UTF-8 (package unicode/utf8) *)
(* ===================================================================== *)

Module UTF8.

Local Open Scope Z_scope.

(** The value of a byte, and the byte of the low 8 bits of a value. *)
Definition byte_of (c : ascii) : Z := Z.of_nat (nat_of_ascii c).
Definition mk_byte (z : Z) : ascii := ascii_of_nat (Z.to_nat (Z.land z 255)).

Definition RuneError : Z := 0xFFFD.
Definition RuneSelf : Z := 0x80.
Definition MaxRune : Z := 0x10FFFF.

(** The tables [first] and [acceptRanges] for a leading byte [b >= 0x80]:
    the sequence size and the accepted range of the second byte; [None]
    for a byte that cannot start a sequence. *)
Definition first_info (b : Z) : option (nat * Z * Z) :=
  if b <? 0xC2 then None
  else if b <=? 0xDF then Some (2%nat, 0x80, 0xBF)
  else if b =? 0xE0 then Some (3%nat, 0xA0, 0xBF)
  else if b <=? 0xEC then Some (3%nat, 0x80, 0xBF)
  else if b =? 0xED then Some (3%nat, 0x80, 0x9F)
  else if b <=? 0xEF then Some (3%nat, 0x80, 0xBF)
  else if b =? 0xF0 then Some (4%nat, 0x90, 0xBF)
  else if b <=? 0xF3 then Some (4%nat, 0x80, 0xBF)
  else if b =? 0xF4 then Some (4%nat, 0x80, 0x8F)
  else None.

(** A continuation byte: [locb <= b <= hicb]. *)
Definition is_cont (b : Z) : bool := (0x80 <=? b) && (b <=? 0xBF).

(** [utf8.DecodeRuneInString s] on a non-empty [s]: the rune, the bytes
    it spans (their number is the width) and the rest of [s].  An invalid
    or truncated sequence gives [RuneError] of width 1. *)
Definition DecodeRuneInString (s : string) : Z * string * string :=
  match s with
  | EmptyString => (RuneError, EmptyString, EmptyString)
  | String c0 s0 =>
      let b0 := byte_of c0 in
      let err := (RuneError, String c0 EmptyString, s0) in
      if b0 <? RuneSelf then (b0, String c0 EmptyString, s0) else
      match first_info b0 with
      | None => err
      | Some (sz, lo, hi) =>
          match s0 with
          | EmptyString => err
          | String c1 s1 =>
              let b1 := byte_of c1 in
              if negb ((lo <=? b1) && (b1 <=? hi)) then err
              else if (sz =? 2)%nat then
                (Z.lor (Z.shiftl (Z.land b0 0x1F) 6) (Z.land b1 0x3F),
                 String c0 (String c1 EmptyString), s1)
              else
                match s1 with
                | EmptyString => err
                | String c2 s2 =>
                    let b2 := byte_of c2 in
                    if negb (is_cont b2) then err
                    else if (sz =? 3)%nat then
                      (Z.lor (Z.shiftl (Z.land b0 0x0F) 12)
                         (Z.lor (Z.shiftl (Z.land b1 0x3F) 6) (Z.land b2 0x3F)),
                       String c0 (String c1 (String c2 EmptyString)), s2)
                    else
                      match s2 with
                      | EmptyString => err
                      | String c3 s3 =>
                          let b3 := byte_of c3 in
                          if negb (is_cont b3) then err
                          else
                            (Z.lor (Z.shiftl (Z.land b0 0x07) 18)
                               (Z.lor (Z.shiftl (Z.land b1 0x3F) 12)
                                  (Z.lor (Z.shiftl (Z.land b2 0x3F) 6) (Z.land b3 0x3F))),
                             String c0 (String c1 (String c2 (String c3 EmptyString))), s3)
                      end
                end
          end
      end
  end.

(** [for _, r := range s]: the runes of [s] with the bytes each one spans.
    Every step consumes at least one byte, so [length s] steps suffice. *)
Fixpoint range_runes (fuel : nat) (s : string) : list (Z * string) :=
  match fuel, s with
  | O, _ => []
  | _, EmptyString => []
  | S fuel', _ =>
      let '(r, span, rest) := DecodeRuneInString s in
      (r, span) :: range_runes fuel' rest
  end.

Definition runes (s : string) : list (Z * string) := range_runes (String.length s) s.

(** [utf8.AppendRune] to an empty slice, for [r >= 0]. *)
Definition EncodeRune (r : Z) : string :=
  if r <=? 0x7F then String (mk_byte r) EmptyString
  else if r <=? 0x7FF then
    String (mk_byte (Z.lor 0xC0 (Z.shiftr r 6)))
      (String (mk_byte (Z.lor 0x80 (Z.land r 0x3F))) EmptyString)
  else
    let r := if (MaxRune <? r) || ((0xD800 <=? r) && (r <=? 0xDFFF)) then RuneError else r in
    if r <=? 0xFFFF then
      String (mk_byte (Z.lor 0xE0 (Z.shiftr r 12)))
        (String (mk_byte (Z.lor 0x80 (Z.land (Z.shiftr r 6) 0x3F)))
           (String (mk_byte (Z.lor 0x80 (Z.land r 0x3F))) EmptyString))
    else
      String (mk_byte (Z.lor 0xF0 (Z.shiftr r 18)))
        (String (mk_byte (Z.lor 0x80 (Z.land (Z.shiftr r 12) 0x3F)))
           (String (mk_byte (Z.lor 0x80 (Z.land (Z.shiftr r 6) 0x3F)))
              (String (mk_byte (Z.lor 0x80 (Z.land r 0x3F))) EmptyString))).

End UTF8.

(* ===================================================================== *)
(** ** Case mapping and white space (package unicode) *)
(* ===================================================================== *)

(** [unicode.CaseRange]: the runes [Lo..Hi] and their deltas to upper,
    lower and title case. *)
Record CaseRange := { Lo : Z; Hi : Z; Delta : Z * Z * Z }.

(** The generated table [unicode.CaseRanges]. *)
Class CaseTable := caseRanges : list CaseRange.

Module Unicode.

Local Open Scope Z_scope.

Definition MaxASCII : Z := 0x7F.
Definition MaxLatin1 : Z := 0xFF.
Definition UpperCase : Z := 0.
Definition LowerCase : Z := 1.
Definition TitleCase : Z := 2.
Definition MaxCase : Z := 3.
Definition UpperLower : Z := UTF8.MaxRune + 1.

(** Go [rune] (int32) arithmetic wraps around. *)
Definition int32 (z : Z) : Z := ((z + 2 ^ 31) mod 2 ^ 32) - 2 ^ 31.

Definition delta_of (d : Z * Z * Z) (_case : Z) : Z :=
  let '(du, dl, dt) := d in
  if _case =? UpperCase then du else if _case =? LowerCase then dl else dt.

(** The binary search of [to] over [caseRange[lo:hi]]; each round shrinks
    [hi - lo], so [length caseRange + 1] rounds suffice. *)
Fixpoint to_search (fuel : nat) (_case r : Z) (caseRange : list CaseRange)
    (lo hi : nat) : Z * bool :=
  match fuel with
  | O => (r, false)
  | S fuel' =>
      if (lo <? hi)%nat then
        let m := Nat.div2 (lo + hi) in
        match nth_error caseRange m with
        | None => (r, false)
        | Some cr =>
            let crLo := int32 (Lo cr) in
            if (crLo <=? r) && (r <=? int32 (Hi cr)) then
              let delta := delta_of (Delta cr) _case in
              if delta >? UTF8.MaxRune then
                (int32 (crLo + Z.lor (Z.ldiff (r - crLo) 1) (Z.land _case 1)), true)
              else (int32 (r + delta), true)
            else if r <? crLo then to_search fuel' _case r caseRange lo m
            else to_search fuel' _case r caseRange (S m) hi
        end
      else (r, false)
  end.

(** [to] *)
Definition to (_case r : Z) (caseRange : list CaseRange) : Z * bool :=
  if (_case <? 0) || (MaxCase <=? _case) then (UTF8.RuneError, false)
  else to_search (S (length caseRange)) _case r caseRange 0 (length caseRange).

(** [unicode.ToLower] *)
Definition ToLower `{CaseTable} (r : Z) : Z :=
  if r <=? MaxASCII then
    (if (65 <=? r) && (r <=? 90) then r + 32 else r)
  else fst (to LowerCase r caseRanges).

(** The runes above Latin-1 of the table [unicode.White_Space]. *)
Definition White_Space_above_Latin1 : list (Z * Z) :=
  [(0x1680, 0x1680); (0x2000, 0x200A); (0x2028, 0x2029); (0x202F, 0x202F);
   (0x205F, 0x205F); (0x3000, 0x3000)].

(** [unicode.IsSpace] *)
Definition IsSpace (r : Z) : bool :=
  if (0 <=? r) && (r <=? MaxLatin1) then
    match r with
    | 9 | 10 | 11 | 12 | 13 | 32 | 0x85 | 0xA0 => true
    | _ => false
    end
  else existsb (fun lh => (lh.1 <=? r) && (r <=? lh.2)) White_Space_above_Latin1.

End Unicode.

(* ===================================================================== *)
(** ** Go string primitives (package strings, fmt) *)
(* ===================================================================== *)

Module GoStrings.

(** The loop of [strings.ToLower] that checks for a byte >= [RuneSelf],
    also the [setBits] check of [strings.Fields]. *)
Fixpoint is_ascii (s : string) : bool :=
  match s with
  | EmptyString => true
  | String c s' => (UTF8.byte_of c <? UTF8.RuneSelf)%Z && is_ascii s'
  end.

(** The ASCII fast path of [strings.ToLower] on one byte. *)
Definition lower_byte (c : ascii) : ascii :=
  let n := nat_of_ascii c in
  if (65 <=? n)%nat && (n <=? 90)%nat then ascii_of_nat (n + 32) else c.

(** The ASCII fast path of [strings.ToLower]. *)
Fixpoint ascii_lower (s : string) : string :=
  match s with
  | EmptyString => EmptyString
  | String c s' => String (lower_byte c) (ascii_lower s')
  end.

(** The second loop of [strings.Map], over the runes after the first
    changed one. *)
Fixpoint map_rest (mapping : Z -> Z) (rs : list (Z * string)) : string :=
  match rs with
  | [] => EmptyString
  | (c, _) :: rs' =>
      let r := mapping c in
      String.append (if (0 <=? r)%Z then UTF8.EncodeRune r else EmptyString)
        (map_rest mapping rs')
  end.

(** The first loop of [strings.Map]: [None] when no rune changes; else the
    bytes before the first changed rune, its image and the second loop. *)
Fixpoint map_first (mapping : Z -> Z) (rs : list (Z * string)) : option string :=
  match rs with
  | [] => None
  | (c, span) :: rs' =>
      let r := mapping c in
      if (r =? c)%Z && negb ((c =? UTF8.RuneError)%Z && (String.length span =? 1)%nat) then
        option_map (String.append span) (map_first mapping rs')
      else
        Some (String.append (if (0 <=? r)%Z then UTF8.EncodeRune r else EmptyString)
                (map_rest mapping rs'))
  end.

(** [strings.Map mapping s] *)
Definition Map (mapping : Z -> Z) (s : string) : string :=
  match map_first mapping (UTF8.runes s) with
  | None => s
  | Some out => out
  end.

(** [strings.ToLower] *)
Definition ToLower `{CaseTable} (s : string) : string :=
  if is_ascii s then ascii_lower s else Map Unicode.ToLower s.

(** [strings.HasPrefix s prefix] *)
Fixpoint HasPrefix (s prefix : string) {struct prefix} : bool :=
  match prefix, s with
  | EmptyString, _ => true
  | String _ _, EmptyString => false
  | String p prefix', String c s' => Ascii.eqb p c && HasPrefix s' prefix'
  end.

(** [strings.Contains s substr]: [substr] occurs at some offset of [s]. *)
Fixpoint Contains (s substr : string) : bool :=
  HasPrefix s substr ||
  match s with
  | EmptyString => false
  | String _ s' => Contains s' substr
  end.

(** [asciiSpace] of package strings: \t \n \v \f \r and space. *)
Definition is_space (c : ascii) : bool :=
  match nat_of_ascii c with
  | 9 | 10 | 11 | 12 | 13 | 32 => true
  | _ => false
  end%nat.

(** The ASCII fast path of [strings.Fields]: the maximal runs of bytes
    that are not [asciiSpace], [cur] being the run read so far. *)
Fixpoint fields_from (s : string) (cur : string) : list string :=
  match s with
  | EmptyString => match cur with EmptyString => [] | _ => [cur] end
  | String c s' =>
      if is_space c then
        match cur with
        | EmptyString => fields_from s' EmptyString
        | _ => cur :: fields_from s' EmptyString
        end
      else fields_from s' (String.append cur (String c EmptyString))
  end.

(** The loop of [strings.FieldsFunc s f]: the maximal runs of runes [r]
    with [f r] false, as the bytes they span; [cur] is the open span. *)
Fixpoint fields_func_from (f : Z -> bool) (rs : list (Z * string)) (cur : string)
    : list string :=
  match rs with
  | [] => match cur with EmptyString => [] | _ => [cur] end
  | (r, span) :: rs' =>
      if f r then
        match cur with
        | EmptyString => fields_func_from f rs' EmptyString
        | _ => cur :: fields_func_from f rs' EmptyString
        end
      else fields_func_from f rs' (String.append cur span)
  end.

(** [strings.FieldsFunc s f] *)
Definition FieldsFunc (s : string) (f : Z -> bool) : list string :=
  fields_func_from f (UTF8.runes s) EmptyString.

(** [strings.Fields] *)
Definition Fields (s : string) : list string :=
  if is_ascii s then fields_from s EmptyString else FieldsFunc s Unicode.IsSpace.

(** [strings.Join elems sep] *)
Fixpoint Join (elems : list string) (sep : string) : string :=
  match elems with
  | [] => EmptyString
  | [e] => e
  | e :: rest => String.append e (String.append sep (Join rest sep))
  end.

(** [fmt.Sprintf("%d", n)] for a Go [int]. *)
Definition itoa (n : Z) : string := NilEmpty.string_of_int (Z.to_int n).

(** Go [int] (64 bits) arithmetic wraps around. *)
Definition wrap_int (z : Z) : Z := ((z + 2 ^ 63) mod 2 ^ 64) - 2 ^ 63.

Definition newline : string := String (ascii_of_nat 10) EmptyString.

End GoStrings.

Import GoStrings.

(* ===================================================================== *)
(** ** Extractors: extractIntent, extractEntities, extractTopics *)
(* ===================================================================== *)

Module Extract.

(** [extractIntent] *)
Definition extractIntent `{CaseTable} (message : string) : string :=
  let lower := ToLower message in
  if Contains lower "help" || Contains lower "assist" then "help_request"
  else if Contains lower "?" then "question"
  else if Contains lower "thank" then "gratitude"
  else if Contains lower "hello" || Contains lower "hi" then "greeting"
  else "general".

(** One iteration of the loop of [extractEntities]. *)
Definition entity_step (entities : gmap string string) (word : string)
    : gmap string string :=
  let entities := if HasPrefix word "@" then <["mention" := word]> entities
                  else entities in
  if HasPrefix word "#" then <["hashtag" := word]> entities else entities.

(** [extractEntities] *)
Definition extractEntities `{CaseTable} (message : string) : gmap string string :=
  let words := Fields (ToLower message) in
  fold_left entity_step words ∅.

(** The map literal [keywords] of [extractTopics], in source order. *)
Definition keywords : list (string * string) :=
  [("code", "programming"); ("python", "programming"); ("go", "programming");
   ("weather", "weather"); ("help", "support"); ("how", "tutorial")].

(** A [for ... range] over a Go map visits its entries in an unspecified
    order, chosen afresh at each loop: any permutation of the entries. *)
Definition range_order (order : list (string * string)) : Prop :=
  Permutation order keywords.

(** One iteration of the loop of [extractTopics]. *)
Definition topic_step (lower : string) (topics : list string)
    (kv : string * string) : list string :=
  if Contains lower kv.1 then topics ++ [kv.2] else topics.

(** [extractTopics], the keyword map being ranged over in [order]. *)
Definition extractTopics `{CaseTable} (order : list (string * string)) (message : string)
    : list string :=
  let lower := ToLower message in
  fold_left (topic_step lower) order [].

End Extract.

Import Extract.

(* ===================================================================== *)
(** ** Conversation store: updateConversationContext *)
(* ===================================================================== *)

Module Store.

(** [ConversationContext]; a [time.Time] is an abstract instant [Z]. *)
Record ConversationContext := {
  UserID : string;
  LastMessage : string;
  MessageCount : Z;
  Topics : list string;
  Timestamp : Z
}.

(** [conversationHistory]: the map of pointers is modelled by the map of
    the pointed-to records; every update goes through the map. *)
Abbreviation History := (gmap string ConversationContext).

(** [contains] *)
Fixpoint contains (slice : list string) (item : string) : bool :=
  match slice with
  | [] => false
  | s :: rest => if String.eqb s item then true else contains rest item
  end.

(** The topic loop of [updateConversationContext]. *)
Definition add_topic (acc : list string) (topic : string) : list string :=
  if negb (contains acc topic) then acc ++ [topic] else acc.

Definition add_topics (stored : list string) (topics : list string)
    : list string :=
  fold_left add_topic topics stored.

(** The context created for a previously unseen user (Go zero time). *)
Definition fresh_context (userID : string) : ConversationContext :=
  {| UserID := userID; LastMessage := ""; MessageCount := 0;
     Topics := []; Timestamp := 0 |}.

(** The fetch-or-create step at the top of [updateConversationContext]. *)
Definition fetch_or_create (history : History) (userID : string)
    : ConversationContext :=
  match history !! userID with
  | Some c => c
  | None => fresh_context userID
  end.

(** [updateConversationContext userID message]; [order] is the iteration
    order of the keyword map inside [extractTopics], [now] is [time.Now()]. *)
Definition updateConversationContext `{CaseTable} (order : list (string * string))
    (now : Z) (history : History) (userID message : string) : History :=
  let ctx := fetch_or_create history userID in
  let topics := extractTopics order message in
  let ctx' := {| UserID := UserID ctx;
                 LastMessage := message;
                 MessageCount := wrap_int (MessageCount ctx + 1);
                 Topics := add_topics (Topics ctx) topics;
                 Timestamp := now |} in
  <[userID := ctx']> history.

(** One call [updateConversationContext userID message], with the keyword
    map's range order and the clock reading of that call. *)
Record UpdateOp := {
  op_order : list (string * string);
  op_now : Z;
  op_user : string;
  op_message : string
}.

(** A sequence of store updates, in order. *)
Definition run_updates `{CaseTable} (history : History) (ops : list UpdateOp) : History :=
  fold_left (fun h op => updateConversationContext (op_order op) (op_now op) h
                           (op_user op) (op_message op)) ops history.

End Store.

Import Store.

(* ===================================================================== *)
(** ** Prompt builder: buildContextPrompt *)
(* ===================================================================== *)

Module Prompt.

Definition preamble : string :=
  "You are a helpful AI assistant integrated with Telex.im messaging platform. ".

Definition instruction : string :=
  String.append "Respond naturally and helpfully to the following message:"
    (String.append newline newline).

Definition turn_annotation (n : Z) : string :=
  String.append "This is message #" (String.append (itoa n) " in the conversation. ").

Definition topics_annotation (topics : list string) : string :=
  String.append "Previous topics discussed: "
    (String.append (Join topics ", ") ". ").

(** [buildContextPrompt ctx message]; [None] is a nil [ctx]. *)
Definition buildContextPrompt (ctx : option ConversationContext)
    (message : string) : string :=
  let prompt := preamble in
  let prompt :=
    match ctx with
    | Some c =>
        if (0 <? MessageCount c)%Z then
          let prompt := String.append prompt (turn_annotation (MessageCount c)) in
          match Topics c with
          | [] => prompt
          | _ => String.append prompt (topics_annotation (Topics c))
          end
        else prompt
    | None => prompt
    end in
  String.append prompt (String.append instruction message).

End Prompt.

Import Prompt.

(* ===================================================================== *)
(** ** HTTP handlers *)
(* ===================================================================== *)

Module Handlers.

(** A Go [(T, error)] pair: a value or an error text. *)
Inductive result (A : Type) : Type :=
  | Ok (a : A)
  | Err (e : string).
Arguments Ok {A} a.
Arguments Err {A} e.

(** What the Groq completion endpoint does with one request: the transport
    fails ([client.Do] or [io.ReadAll]), or it answers with a status code, a
    body and the decoding of that body's [choices] by [json.Unmarshal]. *)
Inductive groq_reply :=
  | GroqTransportError (err : string)
  | GroqResponse (status : Z) (body : string) (choices : result (list string)).

(** What the Telex message endpoint does with one request. *)
Inductive telex_reply :=
  | TelexTransportError (err : string)
  | TelexStatus (status : Z) (body : string).

(** The outbound HTTP calls, as they are made. *)
Inductive Call :=
  | GroqCall (prompt : string)
  | TelexSend (toUserID content : string).

(** The process state: [conversationHistory] and the log of outbound calls. *)
Record World := { history : History; calls : list Call }.

(** A small state monad for the handlers. *)
Definition M (A : Type) : Type := World -> A * World.
Definition ret {A} (a : A) : M A := fun w => (a, w).
Definition bind {A B} (m : M A) (k : A -> M B) : M B :=
  fun w => let '(a, w') := m w in k a w'.
Notation "x <- m ;; k" := (bind m (fun x => k))
  (at level 100, m at next level, right associativity).

Definition get_history : M History := fun w => (history w, w).
Definition put_history (h : History) : M unit :=
  fun w => (tt, {| history := h; calls := calls w |}).
Definition log_call (c : Call) : M unit :=
  fun w => (tt, {| history := history w; calls := calls w ++ [c] |}).

(** The configuration read in [main] and the external world of a request. *)
Record Env := {
  agentID : string;
  telexAPIKey : string;
  now : Z;                              (* time.Now() during the request *)
  topic_order : list (string * string); (* range order of the keyword map *)
  groq : string -> groq_reply;          (* the completion endpoint *)
  telex : string -> string -> telex_reply (* the message endpoint *)
}.

(** [TelexMessage]; its [Timestamp] and [Type] fields are named
    [MsgTimestamp] and [MsgType] here ([Type] is a Rocq keyword). *)
Record TelexMessage := {
  ID : string; From : string; To : string; Content : string;
  MsgTimestamp : Z; MsgType : string
}.

(** [TelexUser]; its [ID] field is named [UserIdent] here. *)
Record TelexUser := { UserIdent : string; Username : string; Name : string }.

(** [TelexWebhook] *)
Record TelexWebhook := {
  Event : string; Message : TelexMessage; User : TelexUser
}.

(** [AgentResponse]; [Confidence] only ever holds the constants 0.0 and
    0.90, kept exactly as rationals. *)
Record AgentResponse := {
  Reply : string;
  Intent : string;
  Entities : gmap string string;
  Confidence : Q
}.

(** The JSON bodies written by [c.JSON]. *)
Inductive Body :=
  | TelexResponse (status message : string)
  | AgentBody (r : AgentResponse)
  | GinError (error : string).

Record Response := { code : Z; body : Body }.

(** The request body of [handleDirectMessage]. *)
Record DirectRequest := { ReqUserID : string; ReqMessage : string }.

Definition apology : string :=
  "I apologize, but I'm having trouble processing your message right now. Please try again.".

(** The fallback reply of [handleIncomingMessage]. *)
Definition fallbackReply : AgentResponse :=
  {| Reply := apology; Intent := ""; Entities := ∅; Confidence := 0 # 1 |}.

(** The checks of [callGroqAPI] on the endpoint's answer. *)
Definition groq_outcome (reply : groq_reply) : result string :=
  match reply with
  | GroqTransportError e => Err e
  | GroqResponse status body choices =>
      if negb (status =? 200)%Z then Err (String.append "groq API error: " body)
      else match choices with
           | Err e => Err e
           | Ok [] => Err "empty response from Groq"
           | Ok (c :: _) => Ok c
           end
  end.

(** The status check of [sendTelexMessage] on the endpoint's answer. *)
Definition telex_outcome (reply : telex_reply) : result unit :=
  match reply with
  | TelexTransportError e => Err e
  | TelexStatus status body =>
      if negb (status =? 200)%Z && negb (status =? 201)%Z
      then Err (String.append "telex API error: " body)
      else Ok tt
  end.

Section WithEnv.
Context `{CaseTable}.
Variable env : Env.

(** [callGroqAPI] *)
Definition callGroqAPI (prompt : string) : M (result string) :=
  _ <- log_call (GroqCall prompt) ;;
  ret (groq_outcome (groq env prompt)).

(** [sendTelexMessage] *)
Definition sendTelexMessage (toUserID content : string) : M (result unit) :=
  _ <- log_call (TelexSend toUserID content) ;;
  ret (telex_outcome (telex env toUserID content)).

(** [updateConversationContext] on the process state. *)
Definition update (userID message : string) : M unit :=
  h <- get_history ;;
  put_history (updateConversationContext (topic_order env) (now env) h userID message).

(** [generateAIResponse] *)
Definition generateAIResponse (userID message : string) : M (result AgentResponse) :=
  h <- get_history ;;
  let ctx := h !! userID in
  let contextPrompt := buildContextPrompt ctx message in
  groqResp <- callGroqAPI contextPrompt ;;
  match groqResp with
  | Err e => ret (Err e)
  | Ok reply =>
      ret (Ok {| Reply := reply; Intent := extractIntent message;
                 Entities := extractEntities message;
                 Confidence := 90 # 100 |})
  end.

(** The error check after [generateAIResponse] in [handleIncomingMessage]. *)
Definition reply_or_fallback (r : result AgentResponse) : AgentResponse :=
  match r with
  | Ok a => a
  | Err _ => fallbackReply
  end.

(** [handleIncomingMessage] *)
Definition handleIncomingMessage (msg : TelexMessage) : M Response :=
  if String.eqb (From msg) (agentID env) then
    ret {| code := 200; body := TelexResponse "ignored" "" |}
  else
    _ <- update (From msg) (Content msg) ;;
    r <- generateAIResponse (From msg) (Content msg) ;;
    let agentReply := reply_or_fallback r in
    sent <- sendTelexMessage (From msg) (Reply agentReply) ;;
    match sent with
    | Err _ => ret {| code := 500; body := TelexResponse "error" "Failed to send response" |}
    | Ok _ => ret {| code := 200; body := TelexResponse "success" "Message processed" |}
    end.

(** [handleUserJoined] *)
Definition handleUserJoined (user : TelexUser) : M Response :=
  let welcomeMsg :=
    String.append "Welcome " (String.append (Name user)
      "! 👋 I'm an AI assistant here to help. Feel free to ask me anything!") in
  sent <- sendTelexMessage (UserIdent user) welcomeMsg ;;
  match sent with
  | Err _ => ret {| code := 500; body := TelexResponse "error" "Failed to send welcome message" |}
  | Ok _ => ret {| code := 200; body := TelexResponse "success" "" |}
  end.

(** [handleTelexWebhook]; [payload] is the outcome of [c.ShouldBindJSON]
    on the request body. *)
Definition handleTelexWebhook (authHeader : string)
    (payload : result TelexWebhook) : M Response :=
  if negb (String.eqb authHeader (String.append "Bearer " (telexAPIKey env))) then
    ret {| code := 401; body := TelexResponse "error" "Unauthorized" |}
  else
    match payload with
    | Err _ => ret {| code := 400; body := TelexResponse "error" "Invalid payload" |}
    | Ok webhook =>
        if String.eqb (Event webhook) "message.received"
           || String.eqb (Event webhook) "message" then
          handleIncomingMessage (Message webhook)
        else if String.eqb (Event webhook) "user.joined" then
          handleUserJoined (User webhook)
        else
          ret {| code := 200; body := TelexResponse "acknowledged" "" |}
    end.

(** [handleDirectMessage]; [payload] is the outcome of [c.ShouldBindJSON]
    (JSON decoding and the [binding:"required"] checks). *)
Definition handleDirectMessage (payload : result DirectRequest) : M Response :=
  match payload with
  | Err e => ret {| code := 400; body := GinError e |}
  | Ok req =>
      _ <- update (ReqUserID req) (ReqMessage req) ;;
      r <- generateAIResponse (ReqUserID req) (ReqMessage req) ;;
      match r with
      | Err e => ret {| code := 500; body := GinError e |}
      | Ok agentReply => ret {| code := 200; body := AgentBody agentReply |}
      end
  end.

End WithEnv.

End Handlers.

Import Handlers.

(* ===================================================================== *)
(** ** Read-only endpoints: getConversationHistory, getMetrics *)
(* ===================================================================== *)

Module Endpoints.

(** The [gin.H] bodies of the read-only endpoints. *)
Inductive GetBody :=
  | ConversationBody (userId : string) (messageCount : Z) (topics : list string)
      (lastMessage : string) (timestamp : Z)
  | MetricsBody (totalConversations totalMessages activeUsers : Z)
      (aiProvider model : string) (timestamp : Z)
  | GetError (error : string).

Record GetResponse := { get_code : Z; get_body : GetBody }.

(** [getConversationHistory]; [userID] is [c.Param("userId")]. *)
Definition getConversationHistory (history : History) (userID : string)
    : GetResponse :=
  match history !! userID with
  | None => {| get_code := 404; get_body := GetError "No conversation found" |}
  | Some ctx =>
      {| get_code := 200;
         get_body := ConversationBody (UserID ctx) (MessageCount ctx) (Topics ctx)
                       (LastMessage ctx) (Timestamp ctx) |}
  end.

(** The loop [totalMessages += ctx.MessageCount] of [getMetrics], in Go
    [int] arithmetic; the sum does not depend on the range order. *)
Definition total_messages (history : History) : Z :=
  map_fold (fun _ ctx acc => wrap_int (acc + MessageCount ctx)) 0%Z history.

(** [getMetrics]; [now] is [time.Now()]. *)
Definition getMetrics (now : Z) (history : History) : GetResponse :=
  let totalConversations := Z.of_nat (size history) in
  let totalMessages := total_messages history in
  {| get_code := 200;
     get_body := MetricsBody totalConversations totalMessages totalConversations
                   "Groq (FREE)" "Llama 3.3 70B" now |}.

End Endpoints.

Import Endpoints.

(* ===================================================================== *)
(** ** Start-up configuration: main *)
(* ===================================================================== *)

Module MainConfig.

(** The package-level configuration variables and the listening port. *)
Record Config := {
  groqAPIKey : string;
  telexAPIKey : string;
  telexBaseURL : string;
  agentID : string;
  port : string
}.

(** The configuration part of [main]; [getenv] is [os.Getenv] after
    [godotenv.Load()], and [Err] is the [log.Fatal] exit. *)
Definition loadConfig (getenv : string -> string) : result Config :=
  let groqAPIKey := getenv "GROQ_API_KEY" in
  let telexAPIKey := getenv "TELEX_API_KEY" in
  let telexBaseURL := getenv "TELEX_BASE_URL" in
  let agentID := getenv "AGENT_ID" in
  if String.eqb groqAPIKey "" || String.eqb telexAPIKey "" then
    Err "Missing required API keys in environment"
  else
    let telexBaseURL :=
      if String.eqb telexBaseURL "" then "https://api.telex.im/v1" else telexBaseURL in
    let agentID := if String.eqb agentID "" then "ai-agent-001" else agentID in
    let port := getenv "PORT" in
    let port := if String.eqb port "" then "8080" else port in
    Ok {| groqAPIKey := groqAPIKey; telexAPIKey := telexAPIKey;
          telexBaseURL := telexBaseURL; agentID := agentID; port := port |}.

End MainConfig.

(* ===================================================================== *)
(** ** Reference definitions written from the documentation *)
(* ===================================================================== *)

Module Reference.

(** The intent rules in their documented priority order. *)
Definition intent_rules : list (list string * string) :=
  [(["help"; "assist"], "help_request"); (["?"], "question");
   (["thank"], "gratitude"); (["hello"; "hi"], "greeting")].

(** First matching rule wins; [general] when none matches. *)
Fixpoint first_match (lower : string) (rules : list (list string * string))
    : string :=
  match rules with
  | [] => "general"
  | (triggers, label) :: rest =>
      if existsb (Contains lower) triggers then label else first_match lower rest
  end.

Definition classifyIntent `{CaseTable} (text : string) : string :=
  first_match (ToLower text) intent_rules.

(** The last word of [words] that starts with [p]. *)
Definition last_with_prefix (p : string) (words : list string) : option string :=
  last (List.filter (fun w => HasPrefix w p) words).

(** Keep the first occurrence of every element, in order. *)
Fixpoint dedup (l : list string) : list string :=
  match l with
  | [] => []
  | x :: r => x :: List.filter (fun y => negb (String.eqb x y)) (dedup r)
  end.

End Reference.

Import Reference.

(* ===================================================================== *)
(** ** Vocabulary of the proofs *)
(* ===================================================================== *)

(** These are not part of the program: predicates and views used to state
    the lemmas about UTF-8 decoding and [strings.Map]. *)

(** A string that is empty or starts with an ASCII byte. *)
Definition starts_ascii (b : string) : Prop :=
  match b with
  | EmptyString => True
  | String d _ => (UTF8.byte_of d < 128)%Z
  end.

(** The runes of an ASCII string, each with its one byte. *)
Fixpoint ascii_runes (p : string) : list (Z * string) :=
  match p with
  | EmptyString => []
  | String c p' => (UTF8.byte_of c, String c EmptyString) :: ascii_runes p'
  end.

(** Every byte of [s] satisfies [f]. *)
Fixpoint string_forall (f : ascii -> bool) (s : string) : bool :=
  match s with
  | EmptyString => true
  | String c s' => f c && string_forall f s'
  end.

(** An ASCII byte whose rune the mapping [f] leaves unchanged. *)
Definition fixed_ascii (f : Z -> Z) (c : ascii) : bool :=
  (UTF8.byte_of c <? 128)%Z && (f (UTF8.byte_of c) =? UTF8.byte_of c)%Z.

(** Four entries of Go's generated table [unicode.CaseRanges] (as
    [{Lo, Hi, d{upper, lower, title}}]), in its order: Latin-1 capitals
    \u00C0-\u00D6 and \u00D8-\u00DE, the dotted capital I \u0130 and the
    Kelvin sign \u212A.  The theorems hold for every table; this excerpt
    only serves to run the definitions on concrete messages. *)
#[export] Instance case_ranges_excerpt : CaseTable :=
  [ {| Lo := 0xC0; Hi := 0xD6; Delta := (0, 32, 0) |};
    {| Lo := 0xD8; Hi := 0xDE; Delta := (0, 32, 0) |};
    {| Lo := 0x130; Hi := 0x130; Delta := (0, -199, 0) |};
    {| Lo := 0x212A; Hi := 0x212A; Delta := (0, -8383, 0) |} ]%Z.

(* ===================================================================== *)
(** * Properties *)
(* ===================================================================== *)

(** ** String helpers *)

Lemma HasPrefix_ascii_lower (s p : string) :
  HasPrefix s p = true -> HasPrefix (ascii_lower s) (ascii_lower p) = true.
Proof.
  revert s; induction p as [|a p IH]; intros s H; [reflexivity|].
  destruct s as [|c s]; [discriminate|].
  simpl in *. apply andb_prop in H as [Hc Hs].
  apply Ascii.eqb_eq in Hc; subst. rewrite Ascii.eqb_refl. simpl. auto.
Qed.

Lemma Contains_ascii_lower (s p : string) :
  Contains s p = true -> Contains (ascii_lower s) (ascii_lower p) = true.
Proof.
  induction s as [|c s IH]; simpl; intros H.
  - apply orb_prop in H as [H|H]; [|discriminate].
    destruct p; [reflexivity|discriminate].
  - apply orb_prop in H as [H|H].
    + apply HasPrefix_ascii_lower in H. simpl in H. now rewrite H.
    + rewrite IH by exact H. apply orb_true_r.
Qed.

Lemma append_cons (c : ascii) (a b : string) :
  String.append (String c a) b = String c (String.append a b).
Proof. reflexivity. Qed.

Lemma append_empty (b : string) : String.append EmptyString b = b.
Proof. reflexivity. Qed.

Lemma HasPrefix_app (p s : string) : HasPrefix (String.append p s) p = true.
Proof.
  induction p as [|a p IH]; [reflexivity|].
  rewrite append_cons; simpl. now rewrite Ascii.eqb_refl, IH.
Qed.

Lemma Contains_app_l (a s p : string) :
  Contains s p = true -> Contains (String.append a s) p = true.
Proof.
  induction a as [|c a IH]; intros H; [exact H|].
  rewrite append_cons; simpl. rewrite IH by exact H. apply orb_true_r.
Qed.

Lemma Contains_middle (a b c : string) :
  Contains (String.append a (String.append b c)) b = true.
Proof.
  apply Contains_app_l. destruct b as [|x b].
  - destruct c; reflexivity.
  - rewrite append_cons; simpl.
    rewrite Ascii.eqb_refl, HasPrefix_app. reflexivity.
Qed.

Lemma String_append_assoc (a b c : string) :
  String.append (String.append a b) c = String.append a (String.append b c).
Proof.
  induction a as [|x a IH]; [reflexivity|].
  rewrite !append_cons. now f_equal.
Qed.

Lemma HasPrefix_spec (s p : string) :
  HasPrefix s p = true <-> exists b, s = String.append p b.
Proof.
  revert s; induction p as [|x p IH]; intros s; split.
  - intros _. exists s. reflexivity.
  - intros _. reflexivity.
  - destruct s as [|c s]; simpl; [discriminate|].
    intros H. apply andb_prop in H as [Hc Hs].
    apply Ascii.eqb_eq in Hc; subst.
    apply IH in Hs as [b ->]. exists b. reflexivity.
  - intros [b ->]. apply HasPrefix_app.
Qed.

Lemma Contains_cons (c : ascii) (s p : string) :
  Contains (String c s) p = HasPrefix (String c s) p || Contains s p.
Proof. reflexivity. Qed.

Lemma Contains_empty (p : string) :
  Contains EmptyString p = HasPrefix EmptyString p.
Proof. unfold Contains. apply orb_false_r. Qed.

Lemma Contains_spec (s p : string) :
  Contains s p = true <-> exists a b, s = String.append a (String.append p b).
Proof.
  induction s as [|c s IH]; split.
  - rewrite Contains_empty. intros H.
    apply HasPrefix_spec in H as [b Hb]. exists EmptyString, b. exact Hb.
  - intros [a [b Hab]]. rewrite Contains_empty. apply HasPrefix_spec.
    destruct a as [|x a]; [|rewrite append_cons in Hab; discriminate].
    exists b. exact Hab.
  - rewrite Contains_cons. intros H. apply orb_prop in H as [H|H].
    + apply HasPrefix_spec in H as [b Hb]. exists EmptyString, b. exact Hb.
    + apply IH in H as [a [b ->]]. exists (String c a), b. reflexivity.
  - intros [a [b Hab]]. rewrite Contains_cons. destruct a as [|x a].
    + apply orb_true_intro; left. apply HasPrefix_spec. exists b. exact Hab.
    + rewrite append_cons in Hab. injection Hab as -> Hs.
      rewrite (proj2 IH) by eauto. apply orb_true_r.
Qed.

Lemma Contains_trans (s x y : string) :
  Contains s x = true -> Contains x y = true -> Contains s y = true.
Proof.
  intros Hsx Hxy.
  apply Contains_spec in Hsx as [a [b ->]].
  apply Contains_spec in Hxy as [c [d ->]].
  apply Contains_spec. exists (String.append a c), (String.append d b).
  rewrite !String_append_assoc. reflexivity.
Qed.

(** ** UTF-8 decoding and strings.Map *)

Lemma string_length_append (a b : string) :
  String.length (String.append a b) = (String.length a + String.length b)%nat.
Proof. induction a as [|c a IH]; simpl; [reflexivity|]. now rewrite IH. Qed.

Ltac decode_cases :=
  repeat match goal with
  | H : context [if ?b then _ else _] |- _ => destruct b eqn:?
  | |- context [if ?b then _ else _] => destruct b eqn:?
  | H : context [match ?o with Some _ => _ | None => _ end] |- _ =>
      let E := fresh "E" in destruct o as [[[? ?] ?]|] eqn:E
  | |- context [match ?o with Some _ => _ | None => _ end] =>
      let E := fresh "E" in destruct o as [[[? ?] ?]|] eqn:E
  end.

Lemma decode_split (c : ascii) (t : string) (r : Z) (sp rest : string) :
  UTF8.DecodeRuneInString (String c t) = (r, sp, rest) ->
  String c t = String.append sp rest /\ sp <> EmptyString.
Proof.
  intros H. unfold UTF8.DecodeRuneInString in H. cbv zeta in H.
  destruct t as [|c1 [|c2 [|c3 t]]]; decode_cases;
    injection H as <- <- <-; (split; [reflexivity|discriminate]).
Qed.

Lemma first_info_lo (b : Z) (sz : nat) (lo hi : Z) :
  UTF8.first_info b = Some (sz, lo, hi) -> (128 <= lo)%Z.
Proof.
  unfold UTF8.first_info. intros H.
  repeat (destruct (_ <? _)%Z || destruct (_ <=? _)%Z || destruct (_ =? _)%Z);
    try discriminate; injection H as <- <- <-; lia.
Qed.

Lemma decode_app (c : ascii) (t b : string) (r : Z) (sp rest : string) :
  starts_ascii b ->
  UTF8.DecodeRuneInString (String c t) = (r, sp, rest) ->
  UTF8.DecodeRuneInString (String.append (String c t) b) = (r, sp, String.append rest b).
Proof.
  intros Hb H. unfold UTF8.DecodeRuneInString in *. cbv zeta in *.
  destruct t as [|c1 [|c2 [|c3 t]]]; destruct b as [|d b]; simpl in Hb;
    rewrite ?append_cons, ?append_empty;
    decode_cases; try discriminate;
    try (injection H as <- <- <-; rewrite ?append_cons, ?append_empty; reflexivity);
    repeat match goal with
    | E : UTF8.first_info _ = Some _ |- _ => apply first_info_lo in E
    end;
    unfold UTF8.is_cont in *;
    repeat match goal with
    | H : (_ && _) = true |- _ => apply andb_prop in H as [? ?]
    | H : (_ && _) = false |- _ => apply andb_false_iff in H as [?|?]
    | H : negb _ = true |- _ => apply negb_true_iff in H
    | H : negb _ = false |- _ => apply negb_false_iff in H
    | H : (_ <=? _)%Z = true |- _ => apply Z.leb_le in H
    | H : (_ <=? _)%Z = false |- _ => apply Z.leb_gt in H
    end; try lia.
Qed.

Lemma range_runes_S (n : nat) (c : ascii) (t : string) :
  UTF8.range_runes (S n) (String c t) =
  let '(r, sp, rest) := UTF8.DecodeRuneInString (String c t) in
  (r, sp) :: UTF8.range_runes n rest.
Proof. reflexivity. Qed.

Lemma decode_shorter (c : ascii) (t : string) (r : Z) (sp rest : string) :
  UTF8.DecodeRuneInString (String c t) = (r, sp, rest) ->
  (String.length rest <= String.length t)%nat.
Proof.
  intros E. apply decode_split in E as [Hs Hsp].
  assert (Hl := f_equal String.length Hs). rewrite string_length_append in Hl.
  destruct sp as [|x sp]; [congruence|]. simpl in Hl. lia.
Qed.

Lemma range_runes_fuel (n m : nat) (s : string) :
  (String.length s <= n)%nat -> (String.length s <= m)%nat ->
  UTF8.range_runes n s = UTF8.range_runes m s.
Proof.
  revert m s; induction n as [|n IH]; intros m s Hn Hm.
  - destruct s as [|c t]; [|simpl in Hn; lia]. destruct m; reflexivity.
  - destruct s as [|c t]; [destruct m; reflexivity|].
    destruct m as [|m]; [simpl in Hm; lia|].
    rewrite !range_runes_S.
    destruct (UTF8.DecodeRuneInString (String c t)) as [[r sp] rest] eqn:E.
    apply decode_shorter in E. simpl in Hn, Hm.
    f_equal. apply IH; lia.
Qed.

Lemma runes_cons (c : ascii) (t : string) :
  UTF8.runes (String c t) =
  let '(r, sp, rest) := UTF8.DecodeRuneInString (String c t) in
  (r, sp) :: UTF8.runes rest.
Proof.
  unfold UTF8.runes at 1.
  change (String.length (String c t)) with (S (String.length t)).
  rewrite range_runes_S.
  destruct (UTF8.DecodeRuneInString (String c t)) as [[r sp] rest] eqn:E.
  apply decode_shorter in E.
  f_equal. unfold UTF8.runes. apply range_runes_fuel; lia.
Qed.

Lemma runes_app (a b : string) :
  starts_ascii b -> UTF8.runes (String.append a b) = UTF8.runes a ++ UTF8.runes b.
Proof.
  intros Hb. remember (String.length a) as n eqn:Hn.
  revert a Hn. induction n as [n IH] using lt_wf_ind. intros a Hn.
  destruct a as [|c t]; [reflexivity|].
  destruct (UTF8.DecodeRuneInString (String c t)) as [[r sp] rest] eqn:E.
  pose proof (decode_app c t b r sp rest Hb E) as E'.
  rewrite append_cons in E' |- *.
  rewrite (runes_cons c (String.append t b)), (runes_cons c t), E', E.
  simpl. f_equal. apply decode_shorter in E.
  apply (IH (String.length rest)); [simpl in Hn; lia|reflexivity].
Qed.

Lemma decode_ascii (c : ascii) (t : string) :
  (UTF8.byte_of c < 128)%Z ->
  UTF8.DecodeRuneInString (String c t) = (UTF8.byte_of c, String c EmptyString, t).
Proof.
  intros H. unfold UTF8.DecodeRuneInString. cbv zeta.
  replace (UTF8.byte_of c <? UTF8.RuneSelf)%Z with true; [reflexivity|].
  symmetry. apply Z.ltb_lt. exact H.
Qed.

Lemma runes_ascii_app (p b : string) :
  string_forall (fun c => (UTF8.byte_of c <? 128)%Z) p = true ->
  UTF8.runes (String.append p b) = ascii_runes p ++ UTF8.runes b.
Proof.
  induction p as [|c p IH]; intros H; [reflexivity|].
  cbn [string_forall] in H. apply andb_prop in H as [Hc Hp]. apply Z.ltb_lt in Hc.
  rewrite append_cons, runes_cons, decode_ascii by exact Hc.
  cbn [ascii_runes]. rewrite <- app_comm_cons. f_equal. apply IH, Hp.
Qed.

Lemma mk_byte_byte_of (c : ascii) : UTF8.mk_byte (UTF8.byte_of c) = c.
Proof. destruct c as [[] [] [] [] [] [] [] []]; reflexivity. Qed.

Lemma byte_of_bounds (c : ascii) : (0 <= UTF8.byte_of c < 256)%Z.
Proof. unfold UTF8.byte_of. pose proof (nat_ascii_bounded c). lia. Qed.

Lemma map_rest_app (f : Z -> Z) (R1 R2 : list (Z * string)) :
  GoStrings.map_rest f (R1 ++ R2) =
  String.append (GoStrings.map_rest f R1) (GoStrings.map_rest f R2).
Proof.
  induction R1 as [|[c sp] R1 IH]; [reflexivity|].
  rewrite <- app_comm_cons. cbn [GoStrings.map_rest].
  rewrite IH, String_append_assoc. reflexivity.
Qed.

Lemma map_rest_ascii (f : Z -> Z) (p : string) :
  string_forall (fixed_ascii f) p = true ->
  GoStrings.map_rest f (ascii_runes p) = p.
Proof.
  induction p as [|c p IH]; intros H; [reflexivity|].
  cbn [string_forall] in H. apply andb_prop in H as [Hc Hp].
  unfold fixed_ascii in Hc. apply andb_prop in Hc as [Hc Hf].
  apply Z.ltb_lt in Hc. apply Z.eqb_eq in Hf.
  cbn [ascii_runes GoStrings.map_rest]. rewrite Hf, IH by exact Hp.
  pose proof (byte_of_bounds c).
  replace (0 <=? UTF8.byte_of c)%Z with true by (symmetry; apply Z.leb_le; lia).
  unfold UTF8.EncodeRune.
  replace (UTF8.byte_of c <=? 0x7F)%Z with true by (symmetry; apply Z.leb_le; lia).
  rewrite mk_byte_byte_of. reflexivity.
Qed.

Lemma map_first_ascii (f : Z -> Z) (p : string) (R : list (Z * string)) :
  string_forall (fixed_ascii f) p = true ->
  GoStrings.map_first f (ascii_runes p ++ R) =
  option_map (String.append p) (GoStrings.map_first f R).
Proof.
  induction p as [|c p IH]; intros H.
  - cbn [ascii_runes app]. destruct (GoStrings.map_first f R); reflexivity.
  - cbn [string_forall] in H. apply andb_prop in H as [Hc Hp].
    unfold fixed_ascii in Hc. apply andb_prop in Hc as [Hc Hf].
    apply Z.ltb_lt in Hc. apply Z.eqb_eq in Hf.
    cbn [ascii_runes]. rewrite <- app_comm_cons. cbn [GoStrings.map_first].
    rewrite Hf, Z.eqb_refl.
    replace (UTF8.byte_of c =? UTF8.RuneError)%Z with false
      by (symmetry; apply Z.eqb_neq; unfold UTF8.RuneError; lia).
    cbn [andb negb]. rewrite IH by exact Hp.
    destruct (GoStrings.map_first f R); reflexivity.
Qed.

Lemma map_first_contains (f : Z -> Z) (p : string) (R1 R2 : list (Z * string)) :
  string_forall (fixed_ascii f) p = true ->
  match GoStrings.map_first f (R1 ++ ascii_runes p ++ R2) with
  | None => True
  | Some out => GoStrings.Contains out p = true
  end.
Proof.
  intros Hp. induction R1 as [|[c sp] R1 IH].
  - cbn [app]. rewrite map_first_ascii by exact Hp.
    destruct (GoStrings.map_first f R2) as [y|]; [|exact I].
    cbn [option_map]. rewrite <- (append_empty (String.append p y)).
    apply Contains_middle.
  - rewrite <- app_comm_cons. cbn [GoStrings.map_first].
    destruct (_ && _).
    + destruct (GoStrings.map_first f (R1 ++ ascii_runes p ++ R2)) as [y|];
        [|exact I].
      cbn [option_map]. apply Contains_app_l, IH.
    + rewrite !map_rest_app, map_rest_ascii by exact Hp.
      rewrite <- String_append_assoc. apply Contains_middle.
Qed.

Lemma lower_byte_fixed `{CT : CaseTable} (c : ascii) :
  fixed_ascii Unicode.ToLower c = true -> GoStrings.lower_byte c = c.
Proof.
  unfold fixed_ascii, Unicode.ToLower, GoStrings.lower_byte, UTF8.byte_of.
  intros Hc. apply andb_prop in Hc as [Hc Hf]. apply Z.ltb_lt in Hc.
  replace (Z.of_nat (nat_of_ascii c) <=? Unicode.MaxASCII)%Z with true in Hf
    by (symmetry; apply Z.leb_le; unfold Unicode.MaxASCII; lia).
  destruct ((65 <=? nat_of_ascii c)%nat && (nat_of_ascii c <=? 90)%nat) eqn:E;
    [|reflexivity].
  apply andb_prop in E as [E1 E2]. apply Nat.leb_le in E1, E2.
  replace ((65 <=? Z.of_nat (nat_of_ascii c)) && (Z.of_nat (nat_of_ascii c) <=? 90))%Z
    with true in Hf by (symmetry; apply andb_true_intro; split; apply Z.leb_le; lia).
  apply Z.eqb_eq in Hf. lia.
Qed.

Lemma ascii_lower_fixed `{CT : CaseTable} (p : string) :
  string_forall (fixed_ascii Unicode.ToLower) p = true -> GoStrings.ascii_lower p = p.
Proof.
  induction p as [|c p IH]; intros Hs; [reflexivity|].
  cbn [string_forall] in Hs. apply andb_prop in Hs as [Hc Hp].
  cbn [GoStrings.ascii_lower]. rewrite lower_byte_fixed, IH by assumption.
  reflexivity.
Qed.

Lemma string_forall_fixed_ascii (f : Z -> Z) (p : string) :
  string_forall (fixed_ascii f) p = true ->
  string_forall (fun c => (UTF8.byte_of c <? 128)%Z) p = true.
Proof.
  induction p as [|c p IH]; [reflexivity|]. cbn [string_forall].
  intros H. apply andb_prop in H as [Hc Hp].
  unfold fixed_ascii in Hc. apply andb_prop in Hc as [Hc _].
  rewrite Hc, IH by exact Hp. reflexivity.
Qed.

(** A lower-case ASCII needle found in a message is still found in the
    lower-cased message, on every input, ASCII or not. *)
Lemma Contains_ToLower `{CT : CaseTable} (m p : string) :
  string_forall (fixed_ascii Unicode.ToLower) p = true ->
  GoStrings.Contains m p = true -> GoStrings.Contains (GoStrings.ToLower m) p = true.
Proof.
  intros Hp Hm. unfold GoStrings.ToLower.
  destruct (GoStrings.is_ascii m).
  - rewrite <- (ascii_lower_fixed p) by exact Hp.
    apply Contains_ascii_lower, Hm.
  - destruct p as [|x p'].
    { destruct (GoStrings.Map _ _); reflexivity. }
    apply Contains_spec in Hm as [a [b ->]].
    unfold GoStrings.Map.
    assert (Hx : starts_ascii (String.append (String x p') b)).
    { cbn [string_forall] in Hp. apply andb_prop in Hp as [Hx _].
      unfold fixed_ascii in Hx. apply andb_prop in Hx as [Hx _].
      apply Z.ltb_lt in Hx. exact Hx. }
    rewrite (runes_app a _ Hx).
    rewrite runes_ascii_app by (eapply string_forall_fixed_ascii; exact Hp).
    pose proof (map_first_contains Unicode.ToLower (String x p')
                  (UTF8.runes a) (UTF8.runes b) Hp) as Hc.
    destruct (GoStrings.map_first _ _) as [out|]; [exact Hc|].
    apply Contains_middle.
Qed.

(** ** Lists *)

Lemma filter_Permutation {A} (f : A -> bool) (l l' : list A) :
  Permutation l l' -> Permutation (List.filter f l) (List.filter f l').
Proof.
  induction 1 as [|x l l' _ IH|x y l|l l' l'' _ IH1 _ IH2]; simpl.
  - constructor.
  - destruct (f x); auto.
  - destruct (f x), (f y); try constructor; reflexivity.
  - etransitivity; eauto.
Qed.

(* ===================================================================== *)
(** ** Extractors *)
(* ===================================================================== *)

Lemma extractTopics_filter `{CT : CaseTable} (order : list (string * string)) (m : string) :
  extractTopics order m
  = map snd (List.filter (fun kv => Contains (ToLower m) kv.1) order).
Proof.
  unfold extractTopics.
  enough (H : forall acc, fold_left (topic_step (ToLower m)) order acc
            = acc ++ map snd (List.filter (fun kv => Contains (ToLower m) kv.1) order))
    by (rewrite H; reflexivity).
  induction order as [|kv order IH]; intros acc; simpl.
  - by rewrite app_nil_r.
  - rewrite IH. unfold topic_step. destruct (Contains (ToLower m) kv.1); simpl.
    + by rewrite <- app_assoc.
    + reflexivity.
Qed.

Lemma count_tags (t : string) (P : string * string -> bool) (l : list (string * string)) :
  length (List.filter (String.eqb t) (map snd (List.filter P l)))
  = length (List.filter (fun kv => String.eqb t kv.2 && P kv) l).
Proof.
  induction l as [|[k v] l IH]; simpl; [reflexivity|].
  destruct (P (k, v)); simpl; destruct (String.eqb t v); simpl;
    rewrite ?IH; reflexivity.
Qed.

(** C2 (counterexample): with the keyword map ranged over in its source
    order, the message "python code" yields the tag "programming" twice, so
    the list returned by [extractTopics] is not free of duplicates. *)
Lemma extractTopics_duplicate_programming :
  extractTopics keywords "python code" = ["programming"; "programming"]
  /\ ~ List.NoDup (extractTopics keywords "python code").
Proof.
  split; [reflexivity|].
  vm_compute. intros Hnd. inversion Hnd as [|? ? Hnotin _]; subst.
  apply Hnotin. now left.
Qed.

(** C2 (amended): whatever the iteration order of the keyword map, each tag
    [t] occurs in [extractTopics order m] exactly once per table keyword
    that maps to [t] and occurs in the lower-cased message. *)
Theorem extractTopics_tag_count `{CT : CaseTable} (order : list (string * string)) (m t : string) :
  range_order order ->
  length (List.filter (String.eqb t) (extractTopics order m))
  = length (List.filter (fun kv => String.eqb t kv.2 && Contains (ToLower m) kv.1)
              keywords).
Proof.
  intros Hperm. rewrite extractTopics_filter, count_tags.
  apply Permutation_length, filter_Permutation, Hperm.
Qed.

Lemma extractTopics_tag_count_witness :
  range_order keywords /\
  length (List.filter (String.eqb "programming") (extractTopics keywords "python code"))
  = length (List.filter (fun kv => String.eqb "programming" kv.2
                                   && Contains (ToLower "python code") kv.1) keywords).
Proof.
  split; [unfold range_order; reflexivity|].
  apply (extractTopics_tag_count keywords "python code" "programming").
  unfold range_order; reflexivity.
Defined.

(** C4: [extractIntent] is the first-match classification over the rules in
    their priority order (help/assist, "?", thank, hello/hi, else general);
    a message containing "help" and "?" is a help request; the result is
    always exactly one of the five labels. *)
Theorem extractIntent_priority `{CT : CaseTable} :
  (forall m, extractIntent m = classifyIntent m) /\
  (forall m, Contains m "help" = true -> Contains m "?" = true ->
             extractIntent m = "help_request") /\
  (forall m, In (extractIntent m)
               ["help_request"; "question"; "gratitude"; "greeting"; "general"]).
Proof.
  split; [|split].
  - intros m. unfold extractIntent, classifyIntent. simpl.
    rewrite !orb_false_r. reflexivity.
  - intros m Hhelp _.
    pose proof (Contains_ToLower m "help" eq_refl Hhelp) as Hlow.
    unfold extractIntent. rewrite Hlow. reflexivity.
  - intros m. unfold extractIntent.
    destruct (_ || _); [simpl; tauto|].
    destruct (Contains _ "?"); [simpl; tauto|].
    destruct (Contains _ "thank"); [simpl; tauto|].
    destruct (_ || _); simpl; tauto.
Qed.

Lemma extractIntent_priority_witness :
  Contains "Can you help me?" "help" = true /\ Contains "Can you help me?" "?" = true
  /\ extractIntent "Can you help me?" = "help_request".
Proof.
  split; [reflexivity|split; [reflexivity|]].
  apply (proj1 (proj2 extractIntent_priority)); reflexivity.
Defined.

Lemma entity_step_mention (acc : gmap string string) (w : string) :
  entity_step acc w !! "mention" = if HasPrefix w "@" then Some w else acc !! "mention".
Proof.
  unfold entity_step.
  destruct (HasPrefix w "@"), (HasPrefix w "#");
    rewrite ?lookup_insert_ne by discriminate; rewrite ?lookup_insert_eq; reflexivity.
Qed.

Lemma entity_step_hashtag (acc : gmap string string) (w : string) :
  entity_step acc w !! "hashtag" = if HasPrefix w "#" then Some w else acc !! "hashtag".
Proof.
  unfold entity_step.
  destruct (HasPrefix w "#"); [by rewrite lookup_insert_eq|].
  destruct (HasPrefix w "@"); [|reflexivity].
  by rewrite lookup_insert_ne.
Qed.

Lemma fold_entity_last (k p : string) :
  (forall acc w, entity_step acc w !! k = if HasPrefix w p then Some w else acc !! k) ->
  forall words acc,
    fold_left entity_step words acc !! k
    = match last_with_prefix p words with Some w => Some w | None => acc !! k end.
Proof.
  intros Hstep words. unfold last_with_prefix.
  induction words as [|w words IH]; intros acc; simpl; [reflexivity|].
  rewrite IH, Hstep.
  destruct (HasPrefix w p); [rewrite last_cons|]; destruct (last _); reflexivity.
Qed.

(** C8: after lower-casing and splitting on white space, the "mention" entry
    is the last word starting with "@" and the "hashtag" entry the last word
    starting with "#" (no entry when there is none); on the message
    "hey @john check #x and @mary" this gives "@mary" and "#x". *)
Theorem extractEntities_last_wins `{CT : CaseTable} :
  (forall m,
     extractEntities m !! "mention" = last_with_prefix "@" (Fields (ToLower m)) /\
     extractEntities m !! "hashtag" = last_with_prefix "#" (Fields (ToLower m))) /\
  (extractEntities "hey @john check #x and @mary" !! "mention" = Some "@mary" /\
   extractEntities "hey @john check #x and @mary" !! "hashtag" = Some "#x").
Proof.
  split.
  - intros m. unfold extractEntities. split.
    + rewrite (fold_entity_last "mention" "@" entity_step_mention).
      destruct (last_with_prefix _ _); reflexivity.
    + rewrite (fold_entity_last "hashtag" "#" entity_step_hashtag).
      destruct (last_with_prefix _ _); reflexivity.
  - split; vm_compute; reflexivity.
Qed.

(** Two non-ASCII inputs, run with [case_ranges_excerpt]:
    "H\u0130\u00C7" (bytes 48 C4 B0 C3 87) lower-cases through
    [unicode.ToLower] to "hi\u00E7" and is a greeting; in
    "hi @bob\u00A0#tag" the no-break space (C2 A0) separates words for
    [unicode.IsSpace], so both entities are found. *)
Lemma extractIntent_non_ascii_greeting :
  extractIntent
    (String "H" (String (ascii_of_nat 0xC4) (String (ascii_of_nat 0xB0)
      (String (ascii_of_nat 0xC3) (String (ascii_of_nat 0x87) EmptyString)))))
  = "greeting".
Proof. vm_compute. reflexivity. Qed.

Lemma extractEntities_no_break_space :
  let m := String.append "hi @bob"
             (String (ascii_of_nat 0xC2) (String (ascii_of_nat 0xA0) "#tag")) in
  extractEntities m !! "mention" = Some "@bob" /\
  extractEntities m !! "hashtag" = Some "#tag".
Proof. split; vm_compute; reflexivity. Qed.

(* ===================================================================== *)
(** ** Prompt builder *)
(* ===================================================================== *)

Lemma buildContextPrompt_annotated (c : ConversationContext) (m : string) :
  (0 < MessageCount c)%Z -> Topics c <> [] ->
  buildContextPrompt (Some c) m
  = String.append preamble
      (String.append (turn_annotation (MessageCount c))
        (String.append "Previous topics discussed: "
          (String.append (Join (Topics c) ", ")
            (String.append ". " (String.append instruction m))))).
Proof.
  intros Hpos Hts. unfold buildContextPrompt.
  apply Z.ltb_lt in Hpos. rewrite Hpos.
  destruct (Topics c) as [|t ts] eqn:E; [congruence|].
  unfold topics_annotation. rewrite <- E.
  rewrite !String_append_assoc. reflexivity.
Qed.

Lemma buildContextPrompt_plain (ctx : option ConversationContext) (m : string) :
  match ctx with Some c => (MessageCount c <= 0)%Z | None => True end ->
  buildContextPrompt ctx m = String.append preamble (String.append instruction m).
Proof.
  intros H. unfold buildContextPrompt.
  destruct ctx as [c|]; [|reflexivity].
  destruct (Z.ltb_spec 0 (MessageCount c)); [lia|reflexivity].
Qed.

(** C5: for a context with a positive [MessageCount] and some topics, the
    prompt contains "This is message #<n> in the conversation. " and the
    topics joined by ", " (e.g. "message #3" and "programming, support"
    for 3 and [programming; support]); with no context, or a count of
    zero, the prompt is the preamble, the instruction and the message,
    with no turn annotation. *)
Theorem buildContextPrompt_turn (c : ConversationContext) (m : string) :
  (0 < MessageCount c)%Z -> Topics c <> [] ->
  Contains (buildContextPrompt (Some c) m) (turn_annotation (MessageCount c)) = true /\
  Contains (buildContextPrompt (Some c) m) (Join (Topics c) ", ") = true /\
  (MessageCount c = 3%Z -> Topics c = ["programming"; "support"] ->
   Contains (buildContextPrompt (Some c) m) "message #3" = true /\
   Contains (buildContextPrompt (Some c) m) "programming, support" = true) /\
  buildContextPrompt None m = String.append preamble (String.append instruction m) /\
  (forall c0, MessageCount c0 = 0%Z ->
   buildContextPrompt (Some c0) m = String.append preamble (String.append instruction m)).
Proof.
  intros Hpos Hts.
  assert (Hturn : Contains (buildContextPrompt (Some c) m)
                    (turn_annotation (MessageCount c)) = true).
  { rewrite buildContextPrompt_annotated by assumption. apply Contains_middle. }
  assert (Hjoin : Contains (buildContextPrompt (Some c) m) (Join (Topics c) ", ") = true).
  { rewrite buildContextPrompt_annotated by assumption.
    do 2 apply Contains_app_l. apply Contains_middle. }
  split; [exact Hturn|split; [exact Hjoin|split; [|split]]].
  - intros H3 Htopics. split.
    + rewrite H3 in Hturn. apply (Contains_trans _ _ _ Hturn). reflexivity.
    + rewrite Htopics in Hjoin. exact Hjoin.
  - reflexivity.
  - intros c0 H0. apply buildContextPrompt_plain. lia.
Qed.

Lemma buildContextPrompt_turn_witness :
  let c := {| UserID := "u1"; LastMessage := "how do I write go code?";
              MessageCount := 3; Topics := ["programming"; "support"];
              Timestamp := 0 |} in
  (0 < MessageCount c)%Z /\ Topics c <> [] /\
  Contains (buildContextPrompt (Some c) "hello") "message #3" = true.
Proof.
  intros c. split; [reflexivity|split; [discriminate|]].
  apply (buildContextPrompt_turn c "hello"); [reflexivity|discriminate|reflexivity|reflexivity].
Defined.

(* ===================================================================== *)
(** ** Conversation store *)
(* ===================================================================== *)

Lemma contains_In (l : list string) (y : string) : contains l y = true <-> In y l.
Proof.
  induction l as [|x l IH]; simpl; [split; [discriminate|tauto]|].
  destruct (String.eqb_spec x y) as [->|Hne]; [tauto|].
  rewrite IH. split; [tauto|intros [H|H]; [congruence|exact H]].
Qed.

Lemma contains_app (l : list string) (x y : string) :
  contains (l ++ [x]) y = contains l y || String.eqb x y.
Proof.
  induction l as [|z l IH]; simpl.
  - destruct (String.eqb x y); reflexivity.
  - destruct (String.eqb z y); [reflexivity|exact IH].
Qed.

Lemma filter_filter_and {A} (f g : A -> bool) (l : list A) :
  List.filter f (List.filter g l) = List.filter (fun y => g y && f y) l.
Proof.
  induction l as [|x l IH]; simpl; [reflexivity|].
  destruct (g x); simpl; [destruct (f x); simpl|]; rewrite ?IH; reflexivity.
Qed.

Lemma filter_ext_In {A} (f g : A -> bool) (l : list A) :
  (forall y, In y l -> f y = g y) -> List.filter f l = List.filter g l.
Proof.
  induction l as [|x l IH]; intros H; simpl; [reflexivity|].
  rewrite (H x (or_introl eq_refl)), IH by (intros y Hy; apply H; right; exact Hy).
  reflexivity.
Qed.

(** The topic loop appends, in first-seen order, the topics not stored yet. *)
Lemma add_topics_dedup (acc l : list string) :
  add_topics acc l = acc ++ List.filter (fun y => negb (contains acc y)) (dedup l).
Proof.
  unfold add_topics. revert acc.
  induction l as [|x l IH]; intros acc; simpl; [by rewrite app_nil_r|].
  rewrite IH. unfold add_topic.
  destruct (contains acc x) eqn:Hx; simpl.
  - f_equal. rewrite filter_filter_and. apply filter_ext_In. intros y _.
    destruct (String.eqb_spec x y) as [->|Hne]; [rewrite Hx; reflexivity|].
    reflexivity.
  - rewrite <- app_assoc. simpl. f_equal. f_equal.
    rewrite filter_filter_and. apply filter_ext_In. intros y _.
    rewrite contains_app, negb_orb. apply andb_comm.
Qed.

Lemma In_dedup (l : list string) (y : string) : In y (dedup l) <-> In y l.
Proof.
  induction l as [|x l IH]; simpl; [tauto|].
  rewrite filter_In, IH.
  destruct (String.eqb_spec x y) as [->|Hne]; simpl; [tauto|].
  split; [tauto|intros [H|H]; [congruence|tauto]].
Qed.

Lemma dedup_app (l1 l2 : list string) :
  dedup (l1 ++ l2)
  = dedup l1 ++ List.filter (fun y => negb (contains l1 y)) (dedup l2).
Proof.
  induction l1 as [|x l1 IH]; simpl.
  - induction (dedup l2) as [|z r IHr]; simpl; [reflexivity|].
    f_equal. exact IHr.
  - f_equal. rewrite IH, List.filter_app. f_equal.
    rewrite filter_filter_and. apply filter_ext_In. intros y _.
    destruct (String.eqb x y); simpl; rewrite ?andb_false_r, ?andb_true_r; reflexivity.
Qed.

Lemma NoDup_dedup (l : list string) : List.NoDup (dedup l).
Proof.
  induction l as [|x l IH]; simpl; constructor.
  - rewrite filter_In. intros [_ H]. rewrite String.eqb_refl in H. discriminate.
  - apply List.NoDup_filter, IH.
Qed.

Lemma add_topics_NoDup (acc l : list string) :
  List.NoDup acc -> List.NoDup (add_topics acc l).
Proof.
  intros Hacc. rewrite add_topics_dedup.
  apply List.NoDup_app; [exact Hacc|apply List.NoDup_filter, NoDup_dedup|].
  intros y Hy Hin. apply filter_In in Hin as [_ Hin].
  apply contains_In in Hy. rewrite Hy in Hin. discriminate.
Qed.

Lemma update_lookup_self `{CT : CaseTable} (order : list (string * string)) (now : Z)
    (h : History) (u m : string) :
  updateConversationContext order now h u m !! u
  = Some {| UserID := UserID (fetch_or_create h u);
            LastMessage := m;
            MessageCount := wrap_int (MessageCount (fetch_or_create h u) + 1);
            Topics := add_topics (Topics (fetch_or_create h u)) (extractTopics order m);
            Timestamp := now |}.
Proof. unfold updateConversationContext. apply lookup_insert_eq. Qed.

Lemma update_lookup_other `{CT : CaseTable} (order : list (string * string)) (now : Z)
    (h : History) (u v m : string) :
  v <> u -> updateConversationContext order now h u m !! v = h !! v.
Proof. intros Hne. unfold updateConversationContext. apply lookup_insert_ne. congruence. Qed.

Lemma fetch_or_create_new (h : History) (u : string) :
  h !! u = None -> fetch_or_create h u = fresh_context u.
Proof. intros H. unfold fetch_or_create. by rewrite H. Qed.

Lemma fetch_or_create_old (h : History) (u : string) (c : ConversationContext) :
  h !! u = Some c -> fetch_or_create h u = c.
Proof. intros H. unfold fetch_or_create. by rewrite H. Qed.

Lemma filter_true_id (l : list string) : List.filter (fun _ => true) l = l.
Proof. induction l as [|x l IH]; simpl; [reflexivity|by rewrite IH]. Qed.

Lemma add_topics_empty (l : list string) : add_topics [] l = dedup l.
Proof. rewrite add_topics_dedup. simpl. apply filter_true_id. Qed.

Lemma add_topics_after_dedup (l1 l2 : list string) :
  add_topics (dedup l1) l2 = dedup (l1 ++ l2).
Proof.
  rewrite add_topics_dedup, dedup_app. f_equal.
  apply filter_ext_In. intros y _. f_equal.
  apply Bool.eq_true_iff_eq. rewrite !contains_In. apply In_dedup.
Qed.

(** C3: for a user id absent from the store, a first update creates a
    context with [MessageCount] 1 and the first message's topics; a second
    update gives [MessageCount] 2 and the topics of both messages with
    duplicates removed, in first-seen order. *)
Theorem update_twice_new_user `{CT : CaseTable} (o1 o2 : list (string * string)) (n1 n2 : Z)
    (h : History) (u m1 m2 : string) :
  h !! u = None ->
  let h1 := updateConversationContext o1 n1 h u m1 in
  let h2 := updateConversationContext o2 n2 h1 u m2 in
  (exists c1, h1 !! u = Some c1 /\ UserID c1 = u /\ MessageCount c1 = 1%Z /\
              Topics c1 = dedup (extractTopics o1 m1)) /\
  (exists c2, h2 !! u = Some c2 /\ UserID c2 = u /\ MessageCount c2 = 2%Z /\
              Topics c2 = dedup (extractTopics o1 m1 ++ extractTopics o2 m2)).
Proof.
  intros Hnone h1 h2.
  assert (H1 : h1 !! u = Some {| UserID := u; LastMessage := m1; MessageCount := 1;
                                 Topics := dedup (extractTopics o1 m1);
                                 Timestamp := n1 |}).
  { unfold h1. rewrite update_lookup_self, fetch_or_create_new by exact Hnone.
    simpl. rewrite add_topics_empty. reflexivity. }
  split.
  - eexists. split; [exact H1|]. simpl. auto.
  - eexists. split; [unfold h2; rewrite update_lookup_self; reflexivity|].
    rewrite (fetch_or_create_old _ _ _ H1). simpl.
    split; [reflexivity|split; [reflexivity|]].
    apply add_topics_after_dedup.
Qed.

Lemma update_twice_new_user_witness :
  (∅ : History) !! "alice" = None /\
  exists c2, updateConversationContext keywords 2
               (updateConversationContext keywords 1 ∅ "alice" "how do I write python code?")
               "alice" "is it weather for help?" !! "alice" = Some c2
             /\ MessageCount c2 = 2%Z
             /\ Topics c2 = dedup (extractTopics keywords "how do I write python code?"
                                   ++ extractTopics keywords "is it weather for help?").
Proof.
  assert (Hnone : (∅ : History) !! "alice" = None) by reflexivity.
  split; [exact Hnone|].
  destruct (update_twice_new_user keywords keywords 1 2 ∅ "alice"
              "how do I write python code?" "is it weather for help?" Hnone)
    as [_ [c2 (Hc2 & _ & Hcount & Htopics)]].
  exists c2. split; [exact Hc2|split; [exact Hcount|exact Htopics]].
Defined.

(** Every context of the store has duplicate-free topics, and one update
    keeps them so. *)
Lemma update_preserves_NoDup `{CT : CaseTable} (order : list (string * string)) (now : Z)
    (h : History) (u m : string) :
  (forall v c, h !! v = Some c -> List.NoDup (Topics c)) ->
  forall v c, updateConversationContext order now h u m !! v = Some c ->
              List.NoDup (Topics c).
Proof.
  intros Hh v c Hv.
  destruct (String.eqb_spec v u) as [->|Hne].
  - rewrite update_lookup_self in Hv. injection Hv as <-. simpl.
    apply add_topics_NoDup. unfold fetch_or_create.
    destruct (h !! u) as [c0|] eqn:E; [exact (Hh u c0 E)|constructor].
  - rewrite update_lookup_other in Hv by exact Hne. exact (Hh v c Hv).
Qed.

Lemma update_topics_extend `{CT : CaseTable} (order : list (string * string)) (now : Z)
    (h : History) (u m v : string) (c c' : ConversationContext) :
  h !! v = Some c -> updateConversationContext order now h u m !! v = Some c' ->
  exists suffix, Topics c' = Topics c ++ suffix.
Proof.
  intros Hc Hc'.
  destruct (String.eqb_spec v u) as [->|Hne].
  - rewrite update_lookup_self, (fetch_or_create_old _ _ _ Hc) in Hc'.
    injection Hc' as <-. simpl. rewrite add_topics_dedup. eexists. reflexivity.
  - rewrite update_lookup_other in Hc' by exact Hne.
    rewrite Hc in Hc'. injection Hc' as <-. exists []. by rewrite app_nil_r.
Qed.

Lemma update_keeps_entry `{CT : CaseTable} (order : list (string * string)) (now : Z)
    (h : History) (u m v : string) (c : ConversationContext) :
  h !! v = Some c -> exists c', updateConversationContext order now h u m !! v = Some c'.
Proof.
  intros Hc. destruct (String.eqb_spec v u) as [->|Hne].
  - rewrite update_lookup_self. eauto.
  - rewrite update_lookup_other by exact Hne. eauto.
Qed.

(** C7: after any sequence of updates from the empty store, every stored
    [Topics] list is free of duplicates; and any sequence of updates only
    appends to a stored [Topics] list, so the first-appearance order of
    the tags already there is kept. *)
Theorem store_topics_distinct_ordered `{CT : CaseTable} :
  (forall (ops : list UpdateOp) (u : string) (c : ConversationContext),
     run_updates ∅ ops !! u = Some c -> List.NoDup (Topics c)) /\
  (forall (h : History) (ops : list UpdateOp) (u : string) (c c' : ConversationContext),
     h !! u = Some c -> run_updates h ops !! u = Some c' ->
     exists suffix, Topics c' = Topics c ++ suffix).
Proof.
  split.
  - intros ops.
    enough (H : forall h, (forall v c, h !! v = Some c -> List.NoDup (Topics c)) ->
                forall u c, run_updates h ops !! u = Some c -> List.NoDup (Topics c))
      by (apply H; intros v c Hv; rewrite lookup_empty in Hv; discriminate).
    induction ops as [|op ops IH]; intros h Hh; simpl; [exact Hh|].
    apply IH. apply update_preserves_NoDup, Hh.
  - intros h ops. revert h.
    induction ops as [|op ops IH]; intros h u c c' Hc Hc'; simpl in Hc'.
    + rewrite Hc in Hc'. injection Hc' as <-. exists []. by rewrite app_nil_r.
    + destruct (update_keeps_entry (op_order op) (op_now op) h (op_user op)
                  (op_message op) u c Hc) as [c1 Hc1].
      destruct (update_topics_extend _ _ _ _ _ _ _ _ Hc Hc1) as [s1 Hs1].
      destruct (IH _ u c1 c' Hc1 Hc') as [s2 Hs2].
      exists (s1 ++ s2). rewrite Hs2, Hs1. symmetry. apply app_assoc.
Qed.

Lemma store_topics_distinct_ordered_witness :
  run_updates ∅ [ {| op_order := keywords; op_now := 1; op_user := "bob";
                     op_message := "python code" |};
                  {| op_order := rev keywords; op_now := 2; op_user := "bob";
                     op_message := "go help" |} ] !! "bob"
    = Some {| UserID := "bob"; LastMessage := "go help"; MessageCount := 2;
              Topics := ["programming"; "support"]; Timestamp := 2 |}
  /\ List.NoDup ["programming"; "support"].
Proof.
  split; [vm_compute; reflexivity|].
  apply (proj1 store_topics_distinct_ordered
           [ {| op_order := keywords; op_now := 1; op_user := "bob";
                op_message := "python code" |};
             {| op_order := rev keywords; op_now := 2; op_user := "bob";
                op_message := "go help" |} ] "bob"
           {| UserID := "bob"; LastMessage := "go help"; MessageCount := 2;
              Topics := ["programming"; "support"]; Timestamp := 2 |}).
  vm_compute. reflexivity.
Defined.

Lemma update_preserves_keys `{CT : CaseTable} (order : list (string * string)) (now : Z)
    (h : History) (u m : string) :
  (forall v c, h !! v = Some c -> UserID c = v) ->
  forall v c, updateConversationContext order now h u m !! v = Some c -> UserID c = v.
Proof.
  intros Hh v c Hv.
  destruct (String.eqb_spec v u) as [->|Hne].
  - rewrite update_lookup_self in Hv. injection Hv as <-. simpl.
    unfold fetch_or_create.
    destruct (h !! u) as [c0|] eqn:E; [exact (Hh u c0 E)|reflexivity].
  - rewrite update_lookup_other in Hv by exact Hne. exact (Hh v c Hv).
Qed.

(** C10: an update for user [u] leaves every other user's entry (present or
    absent, all fields) as it was; [u]'s entry keeps the [UserID] it had, so
    in a store whose entries carry their own key (every store reached from
    the empty one by updates) it is [u]. *)
Theorem update_frame `{CT : CaseTable} (order : list (string * string)) (now : Z)
    (h : History) (u m : string) :
  (forall v, v <> u -> updateConversationContext order now h u m !! v = h !! v) /\
  ((forall c, h !! u = Some c -> UserID c = u) ->
   exists c', updateConversationContext order now h u m !! u = Some c' /\ UserID c' = u) /\
  (forall (ops : list UpdateOp) (v : string) (c : ConversationContext),
     run_updates ∅ ops !! v = Some c -> UserID c = v).
Proof.
  split; [|split].
  - intros v Hne. apply update_lookup_other, Hne.
  - intros Hu. rewrite update_lookup_self. eexists; split; [reflexivity|]. simpl.
    unfold fetch_or_create. destruct (h !! u) as [c0|] eqn:E; [exact (Hu c0 eq_refl)|reflexivity].
  - intros ops.
    enough (H : forall h, (forall v c, h !! v = Some c -> UserID c = v) ->
                forall v c, run_updates h ops !! v = Some c -> UserID c = v)
      by (apply H; intros v c Hv; rewrite lookup_empty in Hv; discriminate).
    induction ops as [|op ops IH]; intros h0 Hh; simpl; [exact Hh|].
    apply IH. apply update_preserves_keys, Hh.
Qed.

Lemma update_frame_witness :
  "carol" <> "alice" /\
  updateConversationContext keywords 7
    (<["carol" := fresh_context "carol"]> ∅) "alice" "hello" !! "carol"
  = Some (fresh_context "carol").
Proof.
  split; [discriminate|].
  rewrite (proj1 (update_frame keywords 7 (<["carol" := fresh_context "carol"]> ∅)
                    "alice" "hello") "carol" ltac:(discriminate)).
  vm_compute. reflexivity.
Defined.

(* ===================================================================== *)
(** ** Handlers *)
(* ===================================================================== *)

(** Unfold the state monad of the handlers. *)
Ltac run_handler :=
  unfold handleTelexWebhook, handleIncomingMessage, handleDirectMessage,
    handleUserJoined, update, generateAIResponse, callGroqAPI,
    sendTelexMessage, reply_or_fallback, bind, ret, get_history,
    put_history, log_call; simpl.

(** C9: a webhook request whose Authorization header is not the expected
    bearer secret gets 401, and an authorized request whose body does not
    decode gets 400; in both cases the process state (the conversation
    store and the outbound calls) is left exactly as it was. *)
Theorem webhook_rejects_before_processing `{CT : CaseTable} (env : Env) (w : World) (auth : string)
    (payload : result TelexWebhook) :
  (auth <> String.append "Bearer " (telexAPIKey env) ->
   handleTelexWebhook env auth payload w
   = ({| code := 401; body := TelexResponse "error" "Unauthorized" |}, w)) /\
  (forall e, auth = String.append "Bearer " (telexAPIKey env) -> payload = Err e ->
   handleTelexWebhook env auth payload w
   = ({| code := 400; body := TelexResponse "error" "Invalid payload" |}, w)).
Proof.
  split.
  - intros Hne. unfold handleTelexWebhook.
    destruct (String.eqb_spec auth (String.append "Bearer " (telexAPIKey env)));
      [contradiction|reflexivity].
  - intros e -> ->. unfold handleTelexWebhook. rewrite String.eqb_refl. reflexivity.
Qed.

Lemma webhook_rejects_before_processing_witness :
  let env := {| agentID := "ai-agent-001"; telexAPIKey := "secret"; now := 0;
                topic_order := keywords; groq := fun _ => GroqTransportError "timeout";
                telex := fun _ _ => TelexStatus 200 "" |} in
  let w := {| history := <["dave" := fresh_context "dave"]> ∅; calls := [] |} in
  "Bearer wrong_key" <> String.append "Bearer " (telexAPIKey env) /\
  handleTelexWebhook env "Bearer wrong_key" (Err "unexpected EOF") w
  = ({| code := 401; body := TelexResponse "error" "Unauthorized" |}, w).
Proof.
  intros env w. split; [discriminate|].
  apply (proj1 (webhook_rejects_before_processing env w "Bearer wrong_key"
                  (Err "unexpected EOF"))).
  discriminate.
Defined.

(** C1 (counterexample): on the direct-message endpoint, a completion
    failure (here a 500 answer of the completion API) is returned to the
    caller as HTTP 500 with the error text, not as the apology reply. *)
Lemma directMessage_completion_failure_is_500 :
  fst (handleDirectMessage
         {| agentID := "ai-agent-001"; telexAPIKey := "secret"; now := 0;
            topic_order := keywords;
            groq := fun _ => GroqResponse 500 "upstream down" (Ok []);
            telex := fun _ _ => TelexStatus 200 "" |}
         (Ok {| ReqUserID := "u1"; ReqMessage := "hello" |})
         {| history := ∅; calls := [] |})
  = {| code := 500; body := GinError "groq API error: upstream down" |}.
Proof. vm_compute. reflexivity. Qed.

(** C1 (amended): when the completion call fails, a webhook message event
    (authorized, from another sender than the agent) relays the fixed
    apology (the fallback reply, confidence 0.0) to the sender and answers
    200, or 500 only if that relay itself fails; the direct-message
    endpoint answers 500 with the completion error text. *)
Theorem completion_failure_handling `{CT : CaseTable} (env : Env) (w : World) (auth : string)
    (wh : TelexWebhook) (e : string) :
  let u := From (Message wh) in
  let m := Content (Message wh) in
  let h1 := updateConversationContext (topic_order env) (now env) (history w) u m in
  let prompt := buildContextPrompt (h1 !! u) m in
  groq_outcome (groq env prompt) = Err e ->
  Reply fallbackReply = apology /\ Confidence fallbackReply = 0 # 1 /\
  (auth = String.append "Bearer " (telexAPIKey env) ->
   (Event wh = "message.received" \/ Event wh = "message") ->
   u <> agentID env ->
   handleTelexWebhook env auth (Ok wh) w
   = (match telex_outcome (telex env u apology) with
      | Ok _ => {| code := 200; body := TelexResponse "success" "Message processed" |}
      | Err _ => {| code := 500; body := TelexResponse "error" "Failed to send response" |}
      end,
      {| history := h1; calls := calls w ++ [GroqCall prompt; TelexSend u apology] |})) /\
  fst (handleDirectMessage env (Ok {| ReqUserID := u; ReqMessage := m |}) w)
  = {| code := 500; body := GinError e |}.
Proof.
  intros u m h1 prompt Hfail.
  split; [reflexivity|split; [reflexivity|split]].
  - intros -> Hev Hne. run_handler. rewrite String.eqb_refl. simpl.
    assert (Hdispatch : String.eqb (Event wh) "message.received"
                        || String.eqb (Event wh) "message" = true)
      by (destruct Hev as [-> | ->]; reflexivity).
    rewrite Hdispatch.
    destruct (String.eqb_spec (From (Message wh)) (agentID env)) as [Heq|_];
      [contradiction|].
    fold u m h1 prompt. rewrite Hfail. simpl.
    rewrite <- app_assoc. simpl.
    destruct (telex_outcome (telex env u apology)); reflexivity.
  - run_handler. fold u m h1 prompt. rewrite Hfail. reflexivity.
Qed.

Lemma completion_failure_handling_witness :
  let env := {| agentID := "ai-agent-001"; telexAPIKey := "secret"; now := 0;
                topic_order := keywords;
                groq := fun _ => GroqResponse 500 "upstream down" (Ok []);
                telex := fun _ _ => TelexStatus 201 "" |} in
  let msg := {| ID := "m1"; From := "u1"; To := "ai-agent-001";
                Content := "can you help?"; MsgTimestamp := 0; MsgType := "" |} in
  let wh := {| Event := "message"; Message := msg;
               User := {| UserIdent := ""; Username := ""; Name := "" |} |} in
  let w := {| history := ∅; calls := [] |} in
  groq_outcome (groq env (buildContextPrompt
     (updateConversationContext keywords 0 ∅ "u1" "can you help?" !! "u1")
     "can you help?")) = Err "groq API error: upstream down" /\
  fst (handleTelexWebhook env "Bearer secret" (Ok wh) w)
  = {| code := 200; body := TelexResponse "success" "Message processed" |}.
Proof.
  intros env msg wh w. split; [reflexivity|].
  destruct (completion_failure_handling env w "Bearer secret" wh
              "groq API error: upstream down" ltac:(reflexivity))
    as (_ & _ & Hwh & _).
  rewrite (Hwh eq_refl (or_intror eq_refl) ltac:(discriminate)). reflexivity.
Defined.

Lemma buildContextPrompt_has_turn (c : ConversationContext) (m : string) :
  (0 < MessageCount c)%Z ->
  Contains (buildContextPrompt (Some c) m) (turn_annotation (MessageCount c)) = true.
Proof.
  intros Hpos. unfold buildContextPrompt.
  apply Z.ltb_lt in Hpos. rewrite Hpos.
  destruct (Topics c); rewrite !String_append_assoc; apply Contains_middle.
Qed.

Lemma wrap_int_small (z : Z) : (- 2 ^ 63 <= z < 2 ^ 63)%Z -> wrap_int z = z.
Proof.
  intros Hz. unfold wrap_int. rewrite Z.mod_small; lia.
Qed.

Lemma add_topics_incl (acc l : list string) (t : string) :
  In t l -> In t (add_topics acc l).
Proof.
  intros Ht. rewrite add_topics_dedup. apply in_or_app.
  destruct (contains acc t) eqn:E; [left; apply contains_In, E|right].
  apply filter_In. split; [apply In_dedup, Ht|rewrite E; reflexivity].
Qed.

(** C6: both message flows update the store first and then build the
    prompt from the updated context [c'] of the sender: the prompt sent to
    the completion API is [buildContextPrompt (Some c') m], [c'] has the
    incremented [MessageCount] and already holds every topic extracted from
    the current message; for a count that does not overflow, the prompt
    reports the turn number old count + 1. *)
Theorem prompt_built_after_update `{CT : CaseTable} (env : Env) (w : World) (u m : string) :
  let old := fetch_or_create (history w) u in
  let h1 := updateConversationContext (topic_order env) (now env) (history w) u m in
  exists c',
    h1 !! u = Some c' /\
    MessageCount c' = wrap_int (MessageCount old + 1) /\
    (forall t, In t (extractTopics (topic_order env) m) -> In t (Topics c')) /\
    calls (snd (handleDirectMessage env (Ok {| ReqUserID := u; ReqMessage := m |}) w))
    = calls w ++ [GroqCall (buildContextPrompt (Some c') m)] /\
    (forall auth wh,
       auth = String.append "Bearer " (telexAPIKey env) ->
       (Event wh = "message.received" \/ Event wh = "message") ->
       From (Message wh) = u -> Content (Message wh) = m -> u <> agentID env ->
       exists rest,
         calls (snd (handleTelexWebhook env auth (Ok wh) w))
         = calls w ++ GroqCall (buildContextPrompt (Some c') m) :: rest) /\
    ((0 <= MessageCount old < 2 ^ 63 - 1)%Z ->
     MessageCount c' = (MessageCount old + 1)%Z /\
     Contains (buildContextPrompt (Some c') m)
       (turn_annotation (MessageCount old + 1)) = true).
Proof.
  intros old h1.
  eexists. split; [unfold h1; apply update_lookup_self|].
  split; [reflexivity|split; [|split; [|split]]].
  - intros t Ht. simpl. apply add_topics_incl, Ht.
  - run_handler. rewrite update_lookup_self.
    destruct (groq_outcome _); reflexivity.
  - intros auth wh -> Hev Hfrom Hcontent Hne. run_handler.
    rewrite String.eqb_refl. simpl.
    assert (Hdispatch : String.eqb (Event wh) "message.received"
                        || String.eqb (Event wh) "message" = true)
      by (destruct Hev as [-> | ->]; reflexivity).
    rewrite Hdispatch, Hfrom, Hcontent.
    destruct (String.eqb_spec u (agentID env)) as [Heq|_]; [contradiction|].
    rewrite update_lookup_self.
    destruct (groq_outcome _); simpl; destruct (telex_outcome _); simpl;
      rewrite <- !app_assoc; eexists; reflexivity.
  - intros Hrange. simpl.
    assert (Hc : wrap_int (MessageCount old + 1) = (MessageCount old + 1)%Z).
    { apply wrap_int_small. change (2 ^ 63)%Z with 9223372036854775808%Z in *. lia. }
    split; [exact Hc|].
    rewrite <- Hc. apply buildContextPrompt_has_turn. simpl.
    unfold old in Hc, Hrange. rewrite Hc. lia.
Qed.

Lemma prompt_built_after_update_witness :
  let env := {| agentID := "ai-agent-001"; telexAPIKey := "secret"; now := 5;
                topic_order := keywords;
                groq := fun _ => GroqResponse 200 "{}" (Ok ["Sure."]);
                telex := fun _ _ => TelexStatus 200 "" |} in
  let msg := {| ID := "m2"; From := "u1"; To := "ai-agent-001";
                Content := "how do I write code?"; MsgTimestamp := 5; MsgType := "" |} in
  let wh := {| Event := "message.received"; Message := msg;
               User := {| UserIdent := ""; Username := ""; Name := "" |} |} in
  let w := {| history := ∅; calls := [] |} in
  exists c', MessageCount c' = 1%Z /\ Topics c' = ["programming"; "tutorial"] /\
    exists rest, calls (snd (handleTelexWebhook env "Bearer secret" (Ok wh) w))
                 = GroqCall (buildContextPrompt (Some c') "how do I write code?") :: rest.
Proof.
  intros env msg wh w.
  destruct (prompt_built_after_update env w "u1" "how do I write code?")
    as (c' & Hlook & Hcount & _ & _ & Hwh & _).
  exists c'. split; [rewrite Hcount; vm_compute; reflexivity|split].
  - vm_compute in Hlook. injection Hlook as <-. reflexivity.
  - exact (Hwh "Bearer secret" wh eq_refl (or_introl eq_refl) eq_refl eq_refl
             ltac:(discriminate)).
Defined.

(* ===================================================================== *)
(** ** Further properties of the handlers *)
(* ===================================================================== *)

Lemma webhook_dispatch_message (wh : TelexWebhook) :
  (Event wh = "message.received" \/ Event wh = "message") ->
  String.eqb (Event wh) "message.received" || String.eqb (Event wh) "message" = true.
Proof. intros [-> | ->]; reflexivity. Qed.

(** An authorized message event whose sender is the agent itself is
    answered 200 "ignored" and changes nothing: no store update and no
    outbound call. *)
Theorem webhook_ignores_own_messages `{CT : CaseTable} (env : Env) (w : World) (wh : TelexWebhook) :
  (Event wh = "message.received" \/ Event wh = "message") ->
  From (Message wh) = agentID env ->
  handleTelexWebhook env (String.append "Bearer " (telexAPIKey env)) (Ok wh) w
  = ({| code := 200; body := TelexResponse "ignored" "" |}, w).
Proof.
  intros Hev Hself. run_handler. rewrite String.eqb_refl. simpl.
  rewrite (webhook_dispatch_message wh Hev), Hself, String.eqb_refl. reflexivity.
Qed.

Lemma webhook_ignores_own_messages_witness :
  let env := {| agentID := "ai-agent-001"; telexAPIKey := "secret"; now := 0;
                topic_order := keywords; groq := fun _ => GroqTransportError "x";
                telex := fun _ _ => TelexStatus 200 "" |} in
  let wh := {| Event := "message";
               Message := {| ID := "m"; From := "ai-agent-001"; To := "u1";
                             Content := "hi"; MsgTimestamp := 0; MsgType := "text" |};
               User := {| UserIdent := ""; Username := ""; Name := "" |} |} in
  handleTelexWebhook env "Bearer secret" (Ok wh) {| history := ∅; calls := [] |}
  = ({| code := 200; body := TelexResponse "ignored" "" |},
     {| history := ∅; calls := [] |}).
Proof.
  intros env wh.
  exact (webhook_ignores_own_messages env {| history := ∅; calls := [] |} wh
           (or_intror eq_refl) eq_refl).
Defined.

(** An authorized event other than a message or a user join (typing or
    unknown events) is acknowledged with 200 and changes nothing. *)
Theorem webhook_acknowledges_other_events `{CT : CaseTable} (env : Env) (w : World) (wh : TelexWebhook) :
  Event wh <> "message.received" -> Event wh <> "message" -> Event wh <> "user.joined" ->
  handleTelexWebhook env (String.append "Bearer " (telexAPIKey env)) (Ok wh) w
  = ({| code := 200; body := TelexResponse "acknowledged" "" |}, w).
Proof.
  intros H1 H2 H3. run_handler. rewrite String.eqb_refl. simpl.
  apply String.eqb_neq in H1, H2, H3. rewrite H1, H2, H3. reflexivity.
Qed.

Lemma webhook_acknowledges_other_events_witness :
  let env := {| agentID := "ai-agent-001"; telexAPIKey := "secret"; now := 0;
                topic_order := keywords; groq := fun _ => GroqTransportError "x";
                telex := fun _ _ => TelexStatus 200 "" |} in
  let wh := {| Event := "user.typing";
               Message := {| ID := ""; From := "u1"; To := ""; Content := "";
                             MsgTimestamp := 0; MsgType := "" |};
               User := {| UserIdent := "u1"; Username := "u"; Name := "U" |} |} in
  handleTelexWebhook env "Bearer secret" (Ok wh) {| history := ∅; calls := [] |}
  = ({| code := 200; body := TelexResponse "acknowledged" "" |},
     {| history := ∅; calls := [] |}).
Proof.
  intros env wh.
  exact (webhook_acknowledges_other_events env {| history := ∅; calls := [] |} wh
           ltac:(discriminate) ltac:(discriminate) ltac:(discriminate)).
Defined.

(** An authorized "user.joined" event leaves the store alone, makes exactly
    one outbound call (the welcome text, addressed to the user's id) and
    answers 200 when that relay succeeds, 500 when it fails. *)
Theorem webhook_user_joined `{CT : CaseTable} (env : Env) (w : World) (wh : TelexWebhook) :
  Event wh = "user.joined" ->
  let welcome := String.append "Welcome " (String.append (Name (User wh))
      "! 👋 I'm an AI assistant here to help. Feel free to ask me anything!") in
  handleTelexWebhook env (String.append "Bearer " (telexAPIKey env)) (Ok wh) w
  = (match telex_outcome (telex env (UserIdent (User wh)) welcome) with
     | Ok _ => {| code := 200; body := TelexResponse "success" "" |}
     | Err _ => {| code := 500; body := TelexResponse "error" "Failed to send welcome message" |}
     end,
     {| history := history w; calls := calls w ++ [TelexSend (UserIdent (User wh)) welcome] |}).
Proof.
  intros Hev welcome. run_handler. rewrite String.eqb_refl, Hev. simpl.
  destruct (telex_outcome _); reflexivity.
Qed.

Lemma webhook_user_joined_witness :
  let env := {| agentID := "ai-agent-001"; telexAPIKey := "secret"; now := 0;
                topic_order := keywords; groq := fun _ => GroqTransportError "x";
                telex := fun _ _ => TelexStatus 503 "busy" |} in
  let wh := {| Event := "user.joined";
               Message := {| ID := ""; From := ""; To := ""; Content := "";
                             MsgTimestamp := 0; MsgType := "" |};
               User := {| UserIdent := "new_user_001"; Username := "newuser";
                          Name := "New User" |} |} in
  fst (handleTelexWebhook env "Bearer secret" (Ok wh) {| history := ∅; calls := [] |})
  = {| code := 500; body := TelexResponse "error" "Failed to send welcome message" |}.
Proof.
  intros env wh.
  change "Bearer secret" with (String.append "Bearer " (telexAPIKey env)).
  rewrite (webhook_user_joined env {| history := ∅; calls := [] |} wh eq_refl).
  reflexivity.
Defined.

(** A request whose body does not bind is answered 400 and changes
    nothing: on the direct-message endpoint (bad JSON or a missing required
    field) with the binding error, on the webhook (once authorized) with
    "Invalid payload". *)
Theorem bad_payload_rejected `{CT : CaseTable} (env : Env) (w : World) (e : string) :
  handleDirectMessage env (Err e) w = ({| code := 400; body := GinError e |}, w) /\
  handleTelexWebhook env (String.append "Bearer " (telexAPIKey env)) (Err e) w
  = ({| code := 400; body := TelexResponse "error" "Invalid payload" |}, w).
Proof. split; [reflexivity|]. run_handler. rewrite String.eqb_refl. reflexivity. Qed.

(** When the completion succeeds with text [r], the direct-message endpoint
    answers 200 with the reply [r], the intent and entities of the message
    and confidence 0.90, after exactly one outbound call (to the completion
    API) and the store update for the message. *)
Theorem directMessage_success `{CT : CaseTable} (env : Env) (w : World) (u m r : string) :
  let h1 := updateConversationContext (topic_order env) (now env) (history w) u m in
  let prompt := buildContextPrompt (h1 !! u) m in
  groq_outcome (groq env prompt) = Ok r ->
  handleDirectMessage env (Ok {| ReqUserID := u; ReqMessage := m |}) w
  = ({| code := 200;
        body := AgentBody {| Reply := r; Intent := extractIntent m;
                             Entities := extractEntities m; Confidence := 90 # 100 |} |},
     {| history := h1; calls := calls w ++ [GroqCall prompt] |}).
Proof.
  intros h1 prompt Hok. run_handler. fold h1 prompt. rewrite Hok. reflexivity.
Qed.

Lemma directMessage_success_witness :
  let env := {| agentID := "ai-agent-001"; telexAPIKey := "secret"; now := 0;
                topic_order := keywords;
                groq := fun _ => GroqResponse 200 "{}" (Ok ["Hello!"; "Hi!"]);
                telex := fun _ _ => TelexStatus 200 "" |} in
  body (fst (handleDirectMessage env (Ok {| ReqUserID := "u1"; ReqMessage := "Hello! #go" |})
                {| history := ∅; calls := [] |}))
  = AgentBody {| Reply := "Hello!"; Intent := "greeting";
                 Entities := <["hashtag" := "#go"]> ∅; Confidence := 90 # 100 |}.
Proof.
  intros env.
  rewrite (directMessage_success env {| history := ∅; calls := [] |} "u1" "Hello! #go"
             "Hello!" ltac:(reflexivity)).
  vm_compute. reflexivity.
Defined.

(** When the completion succeeds with text [r], a webhook message event
    from another sender relays exactly [r] to the sender: one completion
    call, then one relay call; it answers 200 when the relay succeeds and
    500 when it fails. *)
Theorem webhook_relays_completion `{CT : CaseTable} (env : Env) (w : World) (wh : TelexWebhook) (r : string) :
  let u := From (Message wh) in
  let m := Content (Message wh) in
  let h1 := updateConversationContext (topic_order env) (now env) (history w) u m in
  let prompt := buildContextPrompt (h1 !! u) m in
  (Event wh = "message.received" \/ Event wh = "message") ->
  u <> agentID env ->
  groq_outcome (groq env prompt) = Ok r ->
  handleTelexWebhook env (String.append "Bearer " (telexAPIKey env)) (Ok wh) w
  = (match telex_outcome (telex env u r) with
     | Ok _ => {| code := 200; body := TelexResponse "success" "Message processed" |}
     | Err _ => {| code := 500; body := TelexResponse "error" "Failed to send response" |}
     end,
     {| history := h1; calls := calls w ++ [GroqCall prompt; TelexSend u r] |}).
Proof.
  intros u m h1 prompt Hev Hne Hok. run_handler. rewrite String.eqb_refl. simpl.
  rewrite (webhook_dispatch_message wh Hev).
  destruct (String.eqb_spec (From (Message wh)) (agentID env)); [contradiction|].
  fold u m h1 prompt. rewrite Hok. simpl. rewrite <- app_assoc. simpl.
  destruct (telex_outcome _); reflexivity.
Qed.

Lemma webhook_relays_completion_witness :
  let env := {| agentID := "ai-agent-001"; telexAPIKey := "secret"; now := 0;
                topic_order := keywords;
                groq := fun _ => GroqResponse 200 "{}" (Ok ["Sunny."]);
                telex := fun _ _ => TelexStatus 201 "" |} in
  let wh := {| Event := "message.received";
               Message := {| ID := "m"; From := "u1"; To := "ai-agent-001";
                             Content := "weather?"; MsgTimestamp := 0; MsgType := "" |};
               User := {| UserIdent := ""; Username := ""; Name := "" |} |} in
  calls (snd (handleTelexWebhook env "Bearer secret" (Ok wh) {| history := ∅; calls := [] |}))
  = [GroqCall (buildContextPrompt (Some {| UserID := "u1"; LastMessage := "weather?";
                                            MessageCount := 1; Topics := ["weather"];
                                            Timestamp := 0 |}) "weather?");
     TelexSend "u1" "Sunny."].
Proof.
  intros env wh.
  change "Bearer secret" with (String.append "Bearer " (telexAPIKey env)).
  rewrite (webhook_relays_completion env {| history := ∅; calls := [] |} wh "Sunny."
             (or_introl eq_refl) ltac:(discriminate) ltac:(reflexivity)).
  reflexivity.
Defined.

(** Whatever the completion and relay endpoints answer, an authorized
    message event from another sender keeps its store update (nothing is
    rolled back on failure) and makes exactly two outbound calls: the
    completion request, then a relay to the sender of the completion text,
    or of the apology when the completion failed. *)
Theorem webhook_message_effects `{CT : CaseTable} (env : Env) (w : World) (wh : TelexWebhook) :
  let u := From (Message wh) in
  let m := Content (Message wh) in
  let h1 := updateConversationContext (topic_order env) (now env) (history w) u m in
  let prompt := buildContextPrompt (h1 !! u) m in
  (Event wh = "message.received" \/ Event wh = "message") ->
  u <> agentID env ->
  snd (handleTelexWebhook env (String.append "Bearer " (telexAPIKey env)) (Ok wh) w)
  = {| history := h1;
       calls := calls w ++ [GroqCall prompt;
                            TelexSend u (match groq_outcome (groq env prompt) with
                                         | Ok r => r
                                         | Err _ => apology
                                         end)] |}.
Proof.
  intros u m h1 prompt Hev Hne. run_handler. rewrite String.eqb_refl. simpl.
  rewrite (webhook_dispatch_message wh Hev).
  destruct (String.eqb_spec (From (Message wh)) (agentID env)); [contradiction|].
  fold u m h1 prompt.
  destruct (groq_outcome _); simpl; rewrite <- app_assoc; simpl;
    destruct (telex_outcome _); reflexivity.
Qed.

Lemma webhook_message_effects_witness :
  let env := {| agentID := "ai-agent-001"; telexAPIKey := "secret"; now := 7;
                topic_order := keywords;
                groq := fun _ => GroqResponse 500 "down" (Err "");
                telex := fun _ _ => TelexTransportError "timeout" |} in
  let wh := {| Event := "message";
               Message := {| ID := "m"; From := "u1"; To := "ai-agent-001";
                             Content := "help"; MsgTimestamp := 0; MsgType := "" |};
               User := {| UserIdent := ""; Username := ""; Name := "" |} |} in
  (history (snd (handleTelexWebhook env "Bearer secret" (Ok wh)
                   {| history := ∅; calls := [] |}))) !! "u1"
  = Some {| UserID := "u1"; LastMessage := "help"; MessageCount := 1;
            Topics := ["support"]; Timestamp := 7 |}.
Proof.
  intros env wh.
  change "Bearer secret" with (String.append "Bearer " (telexAPIKey env)).
  rewrite (webhook_message_effects env {| history := ∅; calls := [] |} wh
             (or_intror eq_refl) ltac:(discriminate)).
  reflexivity.
Defined.

(** A well-formed direct-message request keeps its store update whatever
    the completion endpoint answers, and makes exactly one outbound call,
    the completion request; nothing is relayed. *)
Theorem directMessage_effects `{CT : CaseTable} (env : Env) (w : World) (u m : string) :
  let h1 := updateConversationContext (topic_order env) (now env) (history w) u m in
  snd (handleDirectMessage env (Ok {| ReqUserID := u; ReqMessage := m |}) w)
  = {| history := h1; calls := calls w ++ [GroqCall (buildContextPrompt (h1 !! u) m)] |}.
Proof.
  intros h1. run_handler. fold h1. destruct (groq_outcome _); reflexivity.
Qed.

(** The completion call succeeds with text [c] exactly when the endpoint
    answered status 200 with at least one choice, [c] being the first. *)
Theorem groq_outcome_ok (r : groq_reply) (c : string) :
  groq_outcome r = Ok c <->
  exists body rest, r = GroqResponse 200 body (Ok (c :: rest)).
Proof.
  split.
  - destruct r as [e | status body choices]; simpl; [discriminate|].
    destruct (Z.eqb_spec status 200) as [-> | Hne]; simpl; [|discriminate].
    destruct choices as [[|c' rest] | e]; try discriminate.
    intros H. injection H as ->. eauto.
  - intros (body & rest & ->). reflexivity.
Qed.

(** The relay succeeds exactly when the endpoint answered status 200 or
    201; a transport error or any other status is a failure. *)
Theorem telex_outcome_ok (r : telex_reply) :
  telex_outcome r = Ok tt <->
  exists status body, r = TelexStatus status body /\ (status = 200 \/ status = 201)%Z.
Proof.
  split.
  - destruct r as [e | status body]; simpl; [discriminate|].
    destruct (Z.eqb_spec status 200), (Z.eqb_spec status 201); simpl;
      try discriminate; eauto.
  - intros (status & body & -> & [-> | ->]); reflexivity.
Qed.

(* ===================================================================== *)
(** ** Further properties of the extractors *)
(* ===================================================================== *)

Lemma extractTopics_in_tags `{CT : CaseTable} (order : list (string * string)) (m t : string) :
  range_order order -> In t (extractTopics order m) ->
  In t ["programming"; "weather"; "support"; "tutorial"].
Proof.
  intros Hperm Ht. rewrite extractTopics_filter in Ht.
  apply in_map_iff in Ht as [kv [<- Hkv]].
  apply filter_In in Hkv as [Hkv _].
  apply (Permutation_in _ Hperm) in Hkv. simpl in Hkv.
  repeat (destruct Hkv as [<-|Hkv]; [simpl; tauto|]). contradiction.
Qed.

(** With the keyword map ranged over in any order, [extractTopics] returns
    at most six tags, each one of "programming", "weather", "support" and
    "tutorial". *)
Theorem extractTopics_range `{CT : CaseTable} (order : list (string * string)) (m : string) :
  range_order order ->
  (length (extractTopics order m) <= 6)%nat /\
  (forall t, In t (extractTopics order m) ->
             In t ["programming"; "weather"; "support"; "tutorial"]).
Proof.
  intros Hperm. split.
  - rewrite extractTopics_filter, length_map.
    etransitivity; [apply List.filter_length_le|].
    rewrite (Permutation_length Hperm). reflexivity.
  - intros t. apply extractTopics_in_tags, Hperm.
Qed.

Lemma extractTopics_range_witness :
  range_order (rev keywords) /\
  (length (extractTopics (rev keywords) "How do I code in Go? Help!") <= 6)%nat.
Proof.
  assert (H : range_order (rev keywords)) by (unfold range_order; apply Permutation_rev).
  split; [exact H|].
  exact (proj1 (extractTopics_range _ "How do I code in Go? Help!" H)).
Defined.

(* ===================================================================== *)
(** ** Further properties of the store and the read-only endpoints *)
(* ===================================================================== *)

Lemma add_topics_In_inv (acc l : list string) (t : string) :
  In t (add_topics acc l) -> In t acc \/ In t l.
Proof.
  rewrite add_topics_dedup. intros Ht. apply in_app_or in Ht as [Ht|Ht]; [auto|].
  apply filter_In in Ht as [Ht _]. right. apply In_dedup, Ht.
Qed.

Lemma update_topics_tags `{CT : CaseTable} (order : list (string * string)) (now : Z)
    (h : History) (u m : string) :
  range_order order ->
  (forall v c, h !! v = Some c ->
     incl (Topics c) ["programming"; "weather"; "support"; "tutorial"]) ->
  forall v c, updateConversationContext order now h u m !! v = Some c ->
     incl (Topics c) ["programming"; "weather"; "support"; "tutorial"].
Proof.
  intros Hperm Hh v c Hv.
  destruct (String.eqb_spec v u) as [->|Hne].
  - rewrite update_lookup_self in Hv. injection Hv as <-. simpl.
    intros t Ht. apply add_topics_In_inv in Ht as [Ht|Ht].
    + unfold fetch_or_create in Ht.
      destruct (h !! u) as [c0|] eqn:E; [exact (Hh u c0 E t Ht)|contradiction].
    + exact (extractTopics_in_tags order m t Hperm Ht).
  - rewrite update_lookup_other in Hv by exact Hne. exact (Hh v c Hv).
Qed.

(** After any sequence of updates from the empty store (each ranging over
    the keyword map in some order), every stored [Topics] list holds only
    the tags "programming", "weather", "support" and "tutorial", so it has
    at most four entries. *)
Theorem store_topics_bounded `{CT : CaseTable} (ops : list UpdateOp) (u : string) (c : ConversationContext) :
  Forall (fun op => range_order (op_order op)) ops ->
  run_updates ∅ ops !! u = Some c ->
  incl (Topics c) ["programming"; "weather"; "support"; "tutorial"] /\
  (length (Topics c) <= 4)%nat.
Proof.
  intros Hops.
  enough (H : forall h,
            (forall v c, h !! v = Some c -> List.NoDup (Topics c)) ->
            (forall v c, h !! v = Some c ->
               incl (Topics c) ["programming"; "weather"; "support"; "tutorial"]) ->
            forall u c, run_updates h ops !! u = Some c ->
            List.NoDup (Topics c) /\
            incl (Topics c) ["programming"; "weather"; "support"; "tutorial"]).
  { intros Hc.
    destruct (H ∅ ltac:(intros v c' Hv; rewrite lookup_empty in Hv; discriminate)
                  ltac:(intros v c' Hv; rewrite lookup_empty in Hv; discriminate) u c Hc)
      as [Hnd Hincl].
    split; [exact Hincl|]. exact (NoDup_incl_length Hnd Hincl). }
  induction Hops as [|op ops Hop Hops IH]; intros h Hnd Hincl v c' Hv; simpl in Hv.
  - split; [exact (Hnd v c' Hv)|exact (Hincl v c' Hv)].
  - exact (IH _ (update_preserves_NoDup _ _ _ _ _ Hnd)
              (update_topics_tags _ _ _ _ _ Hop Hincl) v c' Hv).
Qed.

Lemma store_topics_bounded_witness :
  let ops := [ {| op_order := keywords; op_now := 1; op_user := "bob";
                  op_message := "How is the weather? help with python code" |};
               {| op_order := rev keywords; op_now := 2; op_user := "bob";
                  op_message := "go go go" |} ] in
  Forall (fun op => range_order (op_order op)) ops /\
  (length (Topics (fetch_or_create (run_updates ∅ ops) "bob")) <= 4)%nat.
Proof.
  intros ops.
  assert (Hops : Forall (fun op => range_order (op_order op)) ops).
  { constructor; [unfold range_order; simpl; reflexivity|].
    constructor; [|constructor].
    unfold range_order; simpl. symmetry. apply Permutation_rev. }
  split; [exact Hops|].
  assert (Hc : run_updates ∅ ops !! "bob"
               = Some (fetch_or_create (run_updates ∅ ops) "bob"))
    by (vm_compute; reflexivity).
  exact (proj2 (store_topics_bounded ops "bob" _ Hops Hc)).
Defined.

Lemma wrap_int_add_l (a b : Z) : wrap_int (wrap_int a + b) = wrap_int (a + b).
Proof.
  unfold wrap_int.
  replace ((a + 2 ^ 63) mod 2 ^ 64 - 2 ^ 63 + b + 2 ^ 63)%Z
    with ((a + 2 ^ 63) mod 2 ^ 64 + b)%Z by ring.
  rewrite Zplus_mod_idemp_l. f_equal. f_equal. ring.
Qed.

Lemma wrap_int_add_r (a b : Z) : wrap_int (a + wrap_int b) = wrap_int (a + b).
Proof. rewrite Z.add_comm, wrap_int_add_l. f_equal. ring. Qed.

Lemma filter_user_cons (u : string) (op : UpdateOp) (ops : list UpdateOp) :
  List.filter (fun o => String.eqb (op_user o) u) (ops ++ [op])
  = List.filter (fun o => String.eqb (op_user o) u) ops
    ++ (if String.eqb (op_user op) u then [op] else []).
Proof. rewrite List.filter_app. reflexivity. Qed.

Lemma run_updates_snoc `{CT : CaseTable} (h : History) (ops : list UpdateOp) (op : UpdateOp) :
  run_updates h (ops ++ [op])
  = updateConversationContext (op_order op) (op_now op) (run_updates h ops)
      (op_user op) (op_message op).
Proof. unfold run_updates. rewrite fold_left_app. reflexivity. Qed.

(** After any sequence of updates from the empty store, the conversation
    endpoint for a user [u] answers 404 "No conversation found" when no
    update was for [u]; otherwise it answers 200 with [u] as user id, the
    number of [u]'s updates (as a Go [int]) as message count, and the
    message and clock reading of [u]'s last update. *)
Theorem getConversationHistory_after_updates `{CT : CaseTable} (ops : list UpdateOp) (u : string) :
  let mine := List.filter (fun o => String.eqb (op_user o) u) ops in
  (mine = [] ->
   getConversationHistory (run_updates ∅ ops) u
   = {| get_code := 404; get_body := GetError "No conversation found" |}) /\
  (forall op, last mine = Some op ->
   exists topics,
   getConversationHistory (run_updates ∅ ops) u
   = {| get_code := 200;
        get_body := ConversationBody u (wrap_int (Z.of_nat (length mine))) topics
                      (op_message op) (op_now op) |}).
Proof.
  intros mine.
  enough (H : (mine = [] -> run_updates ∅ ops !! u = None) /\
              (forall op, last mine = Some op ->
               exists c, run_updates ∅ ops !! u = Some c /\ UserID c = u /\
                 MessageCount c = wrap_int (Z.of_nat (length mine)) /\
                 LastMessage c = op_message op /\ Timestamp c = op_now op)).
  { destruct H as [H1 H2]. split.
    - intros Hm. unfold getConversationHistory. rewrite (H1 Hm). reflexivity.
    - intros op Hop. destruct (H2 op Hop) as (c & Hc & Hu & Hn & Hl & Ht).
      exists (Topics c). unfold getConversationHistory. rewrite Hc, <- Hu, <- Hn, <- Hl, <- Ht.
      reflexivity. }
  subst mine. induction ops as [|op ops IH] using rev_ind.
  - split; [reflexivity|]. intros op Hop. discriminate.
  - destruct IH as [IH1 IH2].
    rewrite filter_user_cons, run_updates_snoc.
    destruct (String.eqb_spec (op_user op) u) as [Heq|Hne].
    + split; [intros Hm; apply app_eq_nil in Hm as [_ Hm]; discriminate|].
      intros op' Hop'. rewrite last_snoc in Hop'. injection Hop' as <-.
      rewrite Heq, update_lookup_self. eexists; split; [reflexivity|]. simpl.
      rewrite length_app. simpl.
      destruct (List.filter (fun o => String.eqb (op_user o) u) ops) as [|o0 rest] eqn:E.
      * rewrite fetch_or_create_new by (apply IH1; reflexivity). simpl. auto.
      * destruct (last (o0 :: rest)) as [o1|] eqn:El;
          [|apply last_None in El; discriminate].
        destruct (IH2 o1 eq_refl) as (c & Hc & Hu & Hn & _ & _).
        rewrite (fetch_or_create_old _ _ _ Hc), Hu, Hn, wrap_int_add_l.
        repeat split. f_equal. lia.
    + rewrite app_nil_r. rewrite update_lookup_other by congruence. exact (conj IH1 IH2).
Qed.

Lemma getConversationHistory_after_updates_witness :
  let ops := [ {| op_order := keywords; op_now := 1; op_user := "ann";
                  op_message := "hi" |};
               {| op_order := keywords; op_now := 2; op_user := "bob";
                  op_message := "weather?" |};
               {| op_order := keywords; op_now := 3; op_user := "ann";
                  op_message := "thanks" |} ] in
  exists topics,
  getConversationHistory (run_updates ∅ ops) "ann"
  = {| get_code := 200; get_body := ConversationBody "ann" 2 topics "thanks" 3 |}.
Proof.
  intros ops.
  exact (proj2 (getConversationHistory_after_updates ops "ann")
           {| op_order := keywords; op_now := 3; op_user := "ann"; op_message := "thanks" |}
           eq_refl).
Defined.

Lemma total_messages_insert_new (h : History) (u : string) (c : ConversationContext) :
  h !! u = None ->
  total_messages (<[u := c]> h) = wrap_int (total_messages h + MessageCount c).
Proof.
  intros Hu. unfold total_messages.
  rewrite (map_fold_insert_L
             (fun (_ : string) (ctx : ConversationContext) (acc : Z) =>
                wrap_int (acc + MessageCount ctx))); [reflexivity| |exact Hu].
  intros j1 j2 z1 z2 y _ _ _. rewrite !wrap_int_add_l. f_equal. ring.
Qed.

Lemma total_messages_wrapped (h : History) : wrap_int (total_messages h) = total_messages h.
Proof.
  induction h as [|u c h Hu IH] using map_ind.
  - reflexivity.
  - rewrite total_messages_insert_new by exact Hu.
    pose proof (wrap_int_add_l (total_messages h + MessageCount c) 0) as H0.
    rewrite !Z.add_0_r in H0. exact H0.
Qed.

Lemma total_messages_update `{CT : CaseTable} (order : list (string * string)) (now : Z)
    (h : History) (u m : string) :
  total_messages (updateConversationContext order now h u m)
  = wrap_int (total_messages h + 1).
Proof.
  unfold updateConversationContext. destruct (h !! u) as [c|] eqn:E.
  - rewrite (fetch_or_create_old _ _ _ E).
    rewrite <- insert_delete_eq.
    rewrite total_messages_insert_new by apply lookup_delete_eq.
    rewrite <- (insert_delete_id h u c E) at 2.
    rewrite total_messages_insert_new by apply lookup_delete_eq.
    simpl. rewrite wrap_int_add_r, wrap_int_add_l. f_equal. ring.
  - rewrite (fetch_or_create_new _ _ E).
    rewrite total_messages_insert_new by exact E.
    simpl. rewrite wrap_int_add_r. reflexivity.
Qed.

Lemma run_updates_total `{CT : CaseTable} (h : History) (ops : list UpdateOp) :
  total_messages (run_updates h ops)
  = wrap_int (total_messages h + Z.of_nat (length ops)).
Proof.
  revert h; induction ops as [|op ops IH]; intros h; simpl.
  - rewrite Z.add_0_r. symmetry. apply total_messages_wrapped.
  - rewrite IH, total_messages_update, wrap_int_add_l. f_equal. lia.
Qed.

Lemma run_updates_dom `{CT : CaseTable} (h : History) (ops : list UpdateOp) :
  dom (run_updates h ops) = dom h ∪ list_to_set (map op_user ops).
Proof.
  revert h; induction ops as [|op ops IH]; intros h; simpl.
  - set_solver.
  - rewrite IH. unfold updateConversationContext. rewrite dom_insert_L. set_solver.
Qed.

(** After any sequence of updates from the empty store, the metrics
    endpoint reports as [totalConversations] (and [activeUsers]) the number
    of distinct users updated, and as [totalMessages] the number of updates
    (as a Go [int]). *)
Theorem getMetrics_after_updates `{CT : CaseTable} (now : Z) (ops : list UpdateOp) :
  getMetrics now (run_updates ∅ ops)
  = let n := Z.of_nat (size (list_to_set (map op_user ops) : gset string)) in
    {| get_code := 200;
       get_body := MetricsBody n (wrap_int (Z.of_nat (length ops))) n
                     "Groq (FREE)" "Llama 3.3 70B" now |}.
Proof.
  unfold getMetrics. rewrite run_updates_total.
  rewrite <- (size_dom (run_updates ∅ ops)), run_updates_dom, dom_empty_L,
    union_empty_l_L.
  reflexivity.
Qed.

(** Each store update adds one (in Go [int] arithmetic) to the
    [totalMessages] of the metrics endpoint, and adds one to
    [totalConversations] exactly when the user had no entry before. *)
Theorem getMetrics_update `{CT : CaseTable} (order : list (string * string)) (now : Z)
    (h : History) (u m : string) :
  total_messages (updateConversationContext order now h u m)
  = wrap_int (total_messages h + 1) /\
  size (updateConversationContext order now h u m)
  = (match h !! u with Some _ => 0 | None => 1 end + size h)%nat.
Proof.
  split; [apply total_messages_update|].
  unfold updateConversationContext. rewrite map_size_insert.
  destruct (h !! u); reflexivity.
Qed.

(* ===================================================================== *)
(** ** Start-up configuration *)
(* ===================================================================== *)

(** The service refuses to start exactly when GROQ_API_KEY or TELEX_API_KEY
    is empty or unset; otherwise both keys are taken as they are, and each
    of TELEX_BASE_URL, AGENT_ID and PORT is taken as it is when non-empty
    and falls back to "https://api.telex.im/v1", "ai-agent-001" and "8080"
    when empty or unset. *)
Theorem loadConfig_behaviour (getenv : string -> string) :
  ((getenv "GROQ_API_KEY" = "" \/ getenv "TELEX_API_KEY" = "") ->
   MainConfig.loadConfig getenv = Err "Missing required API keys in environment") /\
  (getenv "GROQ_API_KEY" <> "" -> getenv "TELEX_API_KEY" <> "" ->
   exists cfg, MainConfig.loadConfig getenv = Ok cfg /\
     MainConfig.groqAPIKey cfg = getenv "GROQ_API_KEY" /\
     MainConfig.telexAPIKey cfg = getenv "TELEX_API_KEY" /\
     (forall x default proj,
        (x, default, proj) = ("TELEX_BASE_URL", "https://api.telex.im/v1",
                              MainConfig.telexBaseURL) \/
        (x, default, proj) = ("AGENT_ID", "ai-agent-001", MainConfig.agentID) \/
        (x, default, proj) = ("PORT", "8080", MainConfig.port) ->
        (getenv x = "" -> proj cfg = default) /\
        (getenv x <> "" -> proj cfg = getenv x))).
Proof.
  unfold MainConfig.loadConfig. split.
  - intros [H|H]; rewrite H; [reflexivity|]. now rewrite orb_true_r.
  - intros Hg Ht. apply String.eqb_neq in Hg, Ht. rewrite Hg, Ht. simpl.
    eexists; split; [reflexivity|]. simpl. split; [reflexivity|split; [reflexivity|]].
    intros x default proj Hx.
    repeat destruct Hx as [Hx|Hx]; injection Hx as -> -> ->; simpl;
      (split; intros H; [rewrite H; reflexivity|apply String.eqb_neq in H; rewrite H; reflexivity]).
Qed.

Lemma loadConfig_behaviour_witness :
  let getenv := fun x => if String.eqb x "GROQ_API_KEY" then "gsk" else
                         if String.eqb x "TELEX_API_KEY" then "tlx" else
                         if String.eqb x "PORT" then "3000" else "" in
  exists cfg, MainConfig.loadConfig getenv = Ok cfg /\ MainConfig.port cfg = "3000".
Proof.
  intros getenv.
  destruct (proj2 (loadConfig_behaviour getenv) ltac:(discriminate) ltac:(discriminate))
    as (cfg & Hcfg & _ & _ & Hdef).
  exists cfg. split; [exact Hcfg|].
  exact (proj2 (Hdef "PORT" "8080" MainConfig.port
                  (or_intror (or_intror eq_refl))) ltac:(discriminate)).
Defined.
